(** * ShellDeck: hosts, tabs and the host editor

    A shallow embedding of the state transitions of the application root
    (App.tsx), of the form logic of the host editor (HostEditor.tsx) and of
    the list the sidebar shows (Sidebar.tsx), with the properties the
    specification states about them.

    Conventions of the embedding.
    - A React state variable is a field of a record; an event handler is a
      function from the state it closes over to the state it sets.
    - [Date.now()] is read once per handler call; the value read is an
      argument [now : N] of the handler.
    - A JavaScript string is a [string]: a sequence of code units in
      U+0000..U+00FF.  [toLowerCase], [trim] and [parseInt] below are the
      ECMAScript functions restricted to these code units.  On other
      text [toLowerCase] looks at the context of a capital sigma: the
      search of the sidebar, which lower-cases what the user types, is
      embedded a second time on text of every code point ([Wide]), and
      the two embeddings are shown to agree on U+0000..U+00FF.
    - [undefined] in an optional field is [None].
    - A [number] that holds an integer is a [Z]; [NaN] is [None] where a
      function can return it.  A double holds every integer below 2^53 in
      magnitude exactly; beyond, the engine rounds to the nearest double
      and, past the largest one, to an infinity, which a [Z] does not
      hold.  [parseInt] below yields the mathematical value of the digits
      it reads, which is the number the engine returns in the exact range
      ([JS.exact]); what is stated of a number read from a string is
      stated in that range. *)

From Stdlib Require Import ZArith Ascii Lia.
From stdpp Require Import base list strings pretty.

(** ** ECMAScript string primitives *)

Module JS.

Local Open Scope Z_scope.

(** WhiteSpace and LineTerminator code points: TAB, LF, VT, FF, CR, SP
    and NBSP (the others lie above U+00FF). *)
Definition is_whitespace (c : ascii) : bool :=
  let n := N_of_ascii c in
  ((9 <=? n)%N && (n <=? 13)%N) || (n =? 32)%N || (n =? 160)%N.

Fixpoint trimStart (s : string) : string :=
  match s with
  | String c s' => if is_whitespace c then trimStart s' else s
  | EmptyString => EmptyString
  end.

Fixpoint trimEnd (s : string) : string :=
  match s with
  | EmptyString => EmptyString
  | String c s' =>
      match trimEnd s' with
      | EmptyString => if is_whitespace c then EmptyString else String c EmptyString
      | r => String c r
      end
  end.

(** [String.prototype.trim] *)
Definition trim (s : string) : string := trimEnd (trimStart s).

(** [String.prototype.split] with a separator of one code unit. *)
Fixpoint split (sep : ascii) (s : string) : list string :=
  match s with
  | EmptyString => [EmptyString]
  | String c s' =>
      if bool_decide (c = sep) then EmptyString :: split sep s'
      else match split sep s' with
           | seg :: rest => String c seg :: rest
           | [] => [String c EmptyString]
           end
  end.

(** [Array.prototype.join] *)
Fixpoint join (sep : string) (l : list string) : string :=
  match l with
  | [] => ""
  | [s] => s
  | s :: l' => s +:+ sep +:+ join sep l'
  end.

(** Upper-case letters of U+0000..U+00FF: A-Z, and U+00C0..U+00DE without
    the multiplication sign U+00D7.  Each has its lower-case form 32 code
    points above; no other code unit of the range changes. *)
Definition is_upper (c : ascii) : bool :=
  let n := N_of_ascii c in
  ((65 <=? n)%N && (n <=? 90)%N)
  || ((192 <=? n)%N && (n <=? 222)%N && negb (n =? 215)%N).

Definition lower_char (c : ascii) : ascii :=
  if is_upper c then ascii_of_N (N_of_ascii c + 32) else c.

(** [String.prototype.toLowerCase] on code units of U+0000..U+00FF, where
    it converts character by character; [Wide.toLowerCase] is the
    function on all text. *)
Fixpoint toLowerCase (s : string) : string :=
  match s with
  | EmptyString => EmptyString
  | String c s' => String (lower_char c) (toLowerCase s')
  end.

(** [s.startsWith(q)] *)
Fixpoint startsWith (s q : string) {struct q} : bool :=
  match q, s with
  | EmptyString, _ => true
  | String a q', String b s' => bool_decide (a = b) && startsWith s' q'
  | String _ _, EmptyString => false
  end.

(** [s.includes(q)]: [q] occurs in [s] at some position. *)
Fixpoint includes (s q : string) : bool :=
  startsWith s q ||
  match s with
  | EmptyString => false
  | String _ s' => includes s' q
  end.

(** The value of [c] as a digit in radix [R], if it is one. *)
Definition digit (R : Z) (c : ascii) : option Z :=
  let n := Z.of_N (N_of_ascii c) in
  let v := if (48 <=? n) && (n <=? 57) then Some (n - 48)
           else if (97 <=? n) && (n <=? 122) then Some (n - 87)
           else if (65 <=? n) && (n <=? 90) then Some (n - 55)
           else None in
  match v with
  | Some d => if d <? R then Some d else None
  | None => None
  end.

(** The value of the longest prefix of [s] made of radix-[R] digits;
    [acc] is the value read so far, [None] before the first digit. *)
Fixpoint digits (R : Z) (s : string) (acc : option Z) : option Z :=
  match s with
  | EmptyString => acc
  | String c s' =>
      match digit R c with
      | Some d => digits R s' (Some (R * default 0 acc + d))
      | None => acc
      end
  end.

(** [s.substring(n)]: [s] without its first [n] code units. *)
Fixpoint substring_from (n : nat) (s : string) : string :=
  match n, s with
  | O, _ => s
  | S n', String _ s' => substring_from n' s'
  | S _, EmptyString => EmptyString
  end.

(** [parseInt(str)] without a radix argument; [None] is [NaN].  The steps
    are those of the language definition: strip leading white space, read
    a sign, strip a [0x] prefix (radix 16, else radix 10), read digits.
    The last step of the language definition turns the mathematical value
    into a double: the result below is that double when it is below 2^53
    in magnitude, see [exact]. *)
Definition parseInt (str : string) : option Z :=
  let inputString := trimStart str in
  let sign := if startsWith inputString "-" then -1 else 1 in
  let unsigned :=
    if startsWith inputString "+" || startsWith inputString "-"
    then substring_from 1 inputString else inputString in
  let hex := startsWith unsigned "0x" || startsWith unsigned "0X" in
  let R := if hex then 16 else 10 in
  let body := if hex then substring_from 2 unsigned else unsigned in
  match digits R body None with
  | None => None
  | Some mathInt => Some (sign * mathInt)
  end.

(** The range in which a number read by [parseInt] is the mathematical
    value of its digits: below 2^53 in magnitude every integer is a
    double.  [NaN] is in the range. *)
Definition exact (n : option Z) : Prop :=
  ∀ z, n = Some z → Z.abs z < 2 ^ 53.

(** [n || d] for a number [n]: [NaN] and [0] are falsy. *)
Definition number_or (n : option Z) (d : Z) : Z :=
  match n with
  | Some z => if z =? 0 then d else z
  | None => d
  end.

End JS.

(** ** Data model (types.ts) *)

Inductive HostStatus := idle | connected | error.

Global Instance HostStatus_eq_dec : EqDecision HostStatus.
Proof. solve_decision. Defined.

(** [Host].  The editor hands its form data, a [Partial<Host>], to the save
    handler under a cast; in create mode that object has no [id] and no
    [status], so the two fields are optional here as well. *)
Module Host.
Record t := mk {
  id : option string;
  name : string;
  hostname : string;
  user : string;
  port : Z;
  groupId : option string;
  status : option HostStatus;
  tags : option (list string);
  identityFile : option string;
  extraArgs : option string
}.

Global Instance eq_dec : EqDecision t.
Proof. solve_decision. Defined.

Definition set_id v (h : t) : t :=
  mk v (name h) (hostname h) (user h) (port h) (groupId h) (status h)
     (tags h) (identityFile h) (extraArgs h).
Definition set_name v (h : t) : t :=
  mk (id h) v (hostname h) (user h) (port h) (groupId h) (status h)
     (tags h) (identityFile h) (extraArgs h).
Definition set_hostname v (h : t) : t :=
  mk (id h) (name h) v (user h) (port h) (groupId h) (status h)
     (tags h) (identityFile h) (extraArgs h).
Definition set_user v (h : t) : t :=
  mk (id h) (name h) (hostname h) v (port h) (groupId h) (status h)
     (tags h) (identityFile h) (extraArgs h).
Definition set_port v (h : t) : t :=
  mk (id h) (name h) (hostname h) (user h) v (groupId h) (status h)
     (tags h) (identityFile h) (extraArgs h).
Definition set_groupId v (h : t) : t :=
  mk (id h) (name h) (hostname h) (user h) (port h) v (status h)
     (tags h) (identityFile h) (extraArgs h).
Definition set_status v (h : t) : t :=
  mk (id h) (name h) (hostname h) (user h) (port h) (groupId h) v
     (tags h) (identityFile h) (extraArgs h).
Definition set_tags v (h : t) : t :=
  mk (id h) (name h) (hostname h) (user h) (port h) (groupId h) (status h)
     v (identityFile h) (extraArgs h).
Definition set_identityFile v (h : t) : t :=
  mk (id h) (name h) (hostname h) (user h) (port h) (groupId h) (status h)
     (tags h) v (extraArgs h).
Definition set_extraArgs v (h : t) : t :=
  mk (id h) (name h) (hostname h) (user h) (port h) (groupId h) (status h)
     (tags h) (identityFile h) v.
End Host.

Module Group.
Record t := mk {
  id : string;
  name : string;
  isExpanded : bool
}.

Global Instance eq_dec : EqDecision t.
Proof. solve_decision. Defined.
End Group.

Module Tab.
Record t := mk {
  id : string;
  hostId : string;
  isActive : bool
}.

Global Instance eq_dec : EqDecision t.
Proof. solve_decision. Defined.

Definition set_isActive (v : bool) (x : t) : t := mk (id x) (hostId x) v.
End Tab.

(** ** Host editor (HostEditor.tsx) *)

Module HostEditor.

(** The form data a freshly mounted editor starts from: the host under
    edit, or the defaults of a new host. *)
Definition initialFormData (host : option Host.t) : Host.t :=
  match host with
  | Some h => h
  | None =>
      Host.mk None "" "" "root" 22%Z (Some "") None (Some []) (Some "") (Some "")
  end.

(** The inputs bound to [handleChange], by their [name] attribute. *)
Inductive Field :=
  | name | hostname | port | user | groupId | identityFile | extraArgs.

(** [handleChange]: [e.target] is the pair of [field] and [value]. *)
Definition handleChange (field : Field) (value : string) (prev : Host.t) : Host.t :=
  match field with
  | port => Host.set_port (JS.number_or (JS.parseInt value) 22%Z) prev
  | name => Host.set_name value prev
  | hostname => Host.set_hostname value prev
  | user => Host.set_user value prev
  | groupId => Host.set_groupId (Some value) prev
  | identityFile => Host.set_identityFile (Some value) prev
  | extraArgs => Host.set_extraArgs (Some value) prev
  end.

(** [e.target.value.split(',').map(t => t.trim()).filter(Boolean)] *)
Definition parseTags (value : string) : list string :=
  filter (λ t, t ≠ "") (JS.trim <$> JS.split "," value).

(** The [onChange] of the tags input. *)
Definition tags_onChange (value : string) (formData : Host.t) : Host.t :=
  Host.set_tags (Some (parseTags value)) formData.

(** [handleSubmit], for any owner state [S] and save callback [onSave]. *)
Definition handleSubmit {S : Type} (onSave : Host.t → S → S)
    (formData : Host.t) (st : S) : S :=
  if bool_decide (Host.name formData = "")
     || bool_decide (Host.hostname formData = "")
  then st
  else onSave formData st.

End HostEditor.

(** ** Sidebar (Sidebar.tsx) *)

Module Sidebar.

(** The predicate of [filteredHosts]. *)
Definition matches (searchQuery : string) (h : Host.t) : bool :=
  JS.includes (JS.toLowerCase (Host.name h)) (JS.toLowerCase searchQuery)
  || JS.includes (JS.toLowerCase (Host.hostname h)) (JS.toLowerCase searchQuery)
  || match Host.tags h with
     | Some ts =>
         existsb (λ t, JS.includes (JS.toLowerCase t) (JS.toLowerCase searchQuery)) ts
     | None => false
     end.

Definition filteredHosts (hosts : list Host.t) (searchQuery : string) : list Host.t :=
  filter (λ h, matches searchQuery h) hosts.

(** [!h.groupId]: the field is absent or the empty string. *)
Definition no_groupId (h : Host.t) : bool :=
  match Host.groupId h with
  | None => true
  | Some g => bool_decide (g = "")
  end.

(** What the tree view of the open sidebar lists: the flat search
    results, or one row per group (with its member hosts when the group
    is expanded) followed by the ungrouped hosts. *)
Inductive TreeView :=
  | SearchResults (rows : list Host.t)
  | Browse (groupRows : list (Group.t * option (list Host.t)))
           (ungrouped : list Host.t).

Definition treeView (groups : list Group.t) (hosts : list Host.t)
    (searchQuery : string) : TreeView :=
  if bool_decide (searchQuery ≠ "") then
    SearchResults (filteredHosts hosts searchQuery)
  else
    Browse
      ((λ group,
          (group,
           if Group.isExpanded group
           then Some (filter (λ h, Host.groupId h = Some (Group.id group)) hosts)
           else None)) <$> groups)
      (filter (λ h, no_groupId h) hosts).

End Sidebar.

(** ** Application root (App.tsx) *)

Module App.

Record t := mk {
  groups : list Group.t;
  hosts : list Host.t;
  tabs : list Tab.t;
  isSidebarOpen : bool;
  isSidebarPinned : bool;
  isHomebarOpen : bool;
  isEditorOpen : bool;
  editingHost : option Host.t
}.

Definition setGroups v (st : t) : t :=
  mk v (hosts st) (tabs st) (isSidebarOpen st) (isSidebarPinned st)
     (isHomebarOpen st) (isEditorOpen st) (editingHost st).
Definition setHosts v (st : t) : t :=
  mk (groups st) v (tabs st) (isSidebarOpen st) (isSidebarPinned st)
     (isHomebarOpen st) (isEditorOpen st) (editingHost st).
Definition setTabs v (st : t) : t :=
  mk (groups st) (hosts st) v (isSidebarOpen st) (isSidebarPinned st)
     (isHomebarOpen st) (isEditorOpen st) (editingHost st).
Definition setIsEditorOpen v (st : t) : t :=
  mk (groups st) (hosts st) (tabs st) (isSidebarOpen st) (isSidebarPinned st)
     (isHomebarOpen st) v (editingHost st).
Definition setEditingHost v (st : t) : t :=
  mk (groups st) (hosts st) (tabs st) (isSidebarOpen st) (isSidebarPinned st)
     (isHomebarOpen st) (isEditorOpen st) v.

Definition INITIAL_GROUPS : list Group.t :=
  [ Group.mk "g1" "Production" true;
    Group.mk "g2" "Staging" true;
    Group.mk "g3" "Lab" false ].

Definition INITIAL_HOSTS : list Host.t :=
  [ Host.mk (Some "h1") "web-prod-01" "10.0.1.10" "deploy" 22%Z (Some "g1")
      (Some connected) None None None;
    Host.mk (Some "h2") "db-prod-01" "10.0.1.20" "admin" 2222%Z (Some "g1")
      (Some idle) None None None;
    Host.mk (Some "h3") "web-stage-01" "10.0.2.10" "deploy" 22%Z (Some "g2")
      (Some idle) None None None;
    Host.mk (Some "h4") "labvm01" "192.168.1.100" "root" 22%Z (Some "g3")
      (Some error) None None None;
    Host.mk (Some "h5") "router-home" "192.168.0.1" "admin" 22%Z None
      (Some idle) None None None ].

(** The state of the first render. *)
Definition initial : t :=
  mk INITIAL_GROUPS INITIAL_HOSTS [Tab.mk "t1" "h1" true]
     true true true false None.

Definition handleToggleGroup (groupId : string) (st : t) : t :=
  setGroups
    ((λ g, if bool_decide (Group.id g = groupId)
           then Group.mk (Group.id g) (Group.name g) (negb (Group.isExpanded g))
           else g) <$> groups st)
    st.

(** [existingTab] is the first tab with [hostId]; [now] is what
    [Date.now()] returns. *)
Definition handleConnect (now : N) (hostId : string) (st : t) : t :=
  let tabs' :=
    match list_find (λ x, Tab.hostId x = hostId) (tabs st) with
    | Some (_, existingTab) =>
        (λ x, Tab.set_isActive (bool_decide (Tab.id x = Tab.id existingTab)) x)
          <$> tabs st
    | None =>
        let newTab := Tab.mk ("t" +:+ pretty now) hostId true in
        (Tab.set_isActive false <$> tabs st) ++ [newTab]
    end in
  let hosts' :=
    (λ h, if bool_decide (Host.id h = Some hostId)
          then Host.set_status (Some connected) h
          else h) <$> hosts st in
  setHosts hosts' (setTabs tabs' st).

(** [filter] copies the array, not the tabs: the write to the last
    element of [newTabs] reaches the object the old array holds too, and
    the old array is dropped by [setTabs].  The new state is read here as
    a value. *)
Definition handleCloseTab (tabId : string) (st : t) : t :=
  let newTabs := filter (λ x, Tab.id x ≠ tabId) (tabs st) in
  let closedIsActive :=
    match list_find (λ x, Tab.id x = tabId) (tabs st) with
    | Some (_, x) => Tab.isActive x
    | None => false
    end in
  let newTabs :=
    if bool_decide (0 < length newTabs) && closedIsActive
    then alter (Tab.set_isActive true) (length newTabs - 1) newTabs
    else newTabs in
  setTabs newTabs st.

Definition handleSelectTab (tabId : string) (st : t) : t :=
  setTabs
    ((λ x, Tab.set_isActive (bool_decide (Tab.id x = tabId)) x) <$> tabs st)
    st.

Definition handleNewHost (st : t) : t :=
  setIsEditorOpen true (setEditingHost None st).

Definition handleEditHost (host : Host.t) (st : t) : t :=
  setIsEditorOpen true (setEditingHost (Some host) st).

(** The branch is on [editingHost]; [h.id === host.id] compares two
    optional ids. *)
Definition handleSaveHost (now : N) (host : Host.t) (st : t) : t :=
  let st' :=
    match editingHost st with
    | Some _ =>
        setHosts
          ((λ h, if bool_decide (Host.id h = Host.id host) then host else h)
             <$> hosts st)
          st
    | None =>
        setHosts
          (hosts st ++
             [Host.set_status (Some idle)
                (Host.set_id (Some ("h" +:+ pretty now)) host)])
          st
    end in
  setIsEditorOpen false st'.

(** The editor as the root mounts it: [onSave={handleSaveHost}]. *)
Definition submitEditor (now : N) (formData : Host.t) (st : t) : t :=
  HostEditor.handleSubmit (handleSaveHost now) formData st.

(** The first render with its tab closed: no tab is open. *)
Definition noTabs : t := setTabs [] initial.

(** *** Sequences of tab operations *)

Inductive Call :=
  | connect (now : N) (hostId : string)
  | closeTab (tabId : string)
  | selectTab (tabId : string).

Definition call (c : Call) (st : t) : t :=
  match c with
  | connect now hostId => handleConnect now hostId st
  | closeTab tabId => handleCloseTab tabId st
  | selectTab tabId => handleSelectTab tabId st
  end.

(** The states after each call of a sequence, in order. *)
Fixpoint trace (calls : list Call) (st : t) : list t :=
  match calls with
  | [] => []
  | c :: calls' => let st' := call c st in st' :: trace calls' st'
  end.

End App.

(** ** The statements of the specification *)

Module Spec.

(** The number of tabs with [isActive = true]. *)
Definition activeCount (tabs : list Tab.t) : nat :=
  length (filter (λ x, Tab.isActive x) tabs).

(** Either no tab is open or exactly one tab has [isActive = true]. *)
Definition singleActive (tabs : list Tab.t) : Prop :=
  tabs = [] ∨ activeCount tabs = 1.

(** What the tab handlers keep: distinct ids and a single active tab. *)
Definition tabs_ok (tabs : list Tab.t) : Prop :=
  NoDup (Tab.id <$> tabs) ∧ singleActive tabs.

(** The single-active-tab invariant as the specification words it: from a
    state with no tab, it holds after each call of the sequence. *)
Definition singleActive_after_each_call (calls : list App.Call) : Prop :=
  ∀ st, App.tabs st = [] →
    Forall (λ st', singleActive (App.tabs st')) (App.trace calls st).

(** The calls under which the handlers keep the invariant: a [selectTab]
    made while tabs are open names one of them, and a [connect] that opens
    a tab reads a time whose id no open tab carries. *)
Definition admissible_call (c : App.Call) (st : App.t) : Prop :=
  match c with
  | App.connect now hostId =>
      hostId ∉ Tab.hostId <$> App.tabs st →
      "t" +:+ pretty now ∉ Tab.id <$> App.tabs st
  | App.closeTab _ => True
  | App.selectTab tabId => App.tabs st ≠ [] → tabId ∈ Tab.id <$> App.tabs st
  end.

Fixpoint admissible (calls : list App.Call) (st : App.t) : Prop :=
  match calls with
  | [] => True
  | c :: calls' => admissible_call c st ∧ admissible calls' (App.call c st)
  end.

(** What a tab is apart from its activation flag. *)
Definition slot (x : Tab.t) : string * string := (Tab.id x, Tab.hostId x).

(** No tab shares its id with a tab of [hostId]. *)
Definition id_of_its_own (hostId : string) (tabs : list Tab.t) : Prop :=
  ∀ i j x y, tabs !! i = Some x → tabs !! j = Some y →
    Tab.hostId x = hostId → Tab.id y = Tab.id x → j = i.

(** Exactly one tab has the id [tabId]. *)
Definition only_tab (tabId : string) (tabs : list Tab.t) : Prop :=
  length (filter (λ x, Tab.id x = tabId) tabs) = 1.

(** [connect(hostId)] as the specification words it. *)
Definition connect_claim (now : N) (hostId : string) (st : App.t) : Prop :=
  let st' := App.handleConnect now hostId st in
  (hostId ∈ Tab.hostId <$> App.tabs st →
     length (App.tabs st') = length (App.tabs st) ∧
     ∃ i x, App.tabs st !! i = Some x ∧ Tab.hostId x = hostId ∧
       ∀ j y, App.tabs st !! j = Some y →
         App.tabs st' !! j = Some (Tab.set_isActive (bool_decide (j = i)) y))
  ∧ (hostId ∉ Tab.hostId <$> App.tabs st →
     ∃ newTab, Tab.hostId newTab = hostId ∧ Tab.isActive newTab = true ∧
       App.tabs st' = (Tab.set_isActive false <$> App.tabs st) ++ [newTab])
  ∧ length (App.hosts st') = length (App.hosts st)
  ∧ ∀ i h, App.hosts st !! i = Some h →
      (Host.id h = Some hostId →
         App.hosts st' !! i = Some (Host.set_status (Some connected) h))
      ∧ (Host.id h ≠ Some hostId → App.hosts st' !! i = Some h).

(** [closeTab(tabId)] as the specification words it, for a [tabId] that
    is in the list: the list splits around the closed tab [x]; the other
    tabs stay, in order; the flags change only as stated. *)
Definition closeTab_claim (tabId : string) (st : App.t) : Prop :=
  let st' := App.handleCloseTab tabId st in
  ∃ pre x post,
    App.tabs st = pre ++ (x :: post) ∧ Tab.id x = tabId ∧
    slot <$> App.tabs st' = slot <$> (pre ++ post) ∧
    (Tab.isActive x = true → ∀ init z, pre ++ post = init ++ [z] →
       App.tabs st' = init ++ [Tab.set_isActive true z]) ∧
    (Tab.isActive x = false → App.tabs st' = pre ++ post) ∧
    (pre ++ post = [] → ∀ y, y ∈ App.tabs st' → Tab.isActive y = false).

(** *** Words for the search *)

(** Two code units that are one letter up to case: equal, or one an
    upper-case letter and the other its lower-case form. *)
Definition same_letter (a b : ascii) : Prop :=
  a = b
  ∨ (JS.is_upper a = true ∧ N_of_ascii b = (N_of_ascii a + 32)%N)
  ∨ (JS.is_upper b = true ∧ N_of_ascii a = (N_of_ascii b + 32)%N).

(** Strings equal up to the case of their letters. *)
Inductive ci_eq : string → string → Prop :=
  | ci_eq_nil : ci_eq "" ""
  | ci_eq_cons a b s t :
      same_letter a b → ci_eq s t → ci_eq (String a s) (String b t).

(** [s] contains [q] as a case-insensitive substring. *)
Definition ci_contains (s q : string) : Prop :=
  ∃ pre mid post, s = pre +:+ mid +:+ post ∧ ci_eq mid q.

(** The hosts a search for [q] is to list: [q] is in the name, in the
    hostname or in one of the tags, case-insensitively. *)
Definition host_matches (q : string) (h : Host.t) : Prop :=
  ci_contains (Host.name h) q
  ∨ ci_contains (Host.hostname h) q
  ∨ ∃ ts t, Host.tags h = Some ts ∧ t ∈ ts ∧ ci_contains t q.

(** *** Words for the tags field *)

Fixpoint all_whitespace (s : string) : bool :=
  match s with
  | EmptyString => true
  | String c s' => JS.is_whitespace c && all_whitespace s'
  end.

Fixpoint contains_char (c : ascii) (s : string) : bool :=
  match s with
  | EmptyString => false
  | String b s' => bool_decide (b = c) || contains_char c s'
  end.

Definition first_char (s : string) : option ascii :=
  match s with
  | EmptyString => None
  | String c _ => Some c
  end.

Fixpoint last_char (s : string) : option ascii :=
  match s with
  | EmptyString => None
  | String c EmptyString => Some c
  | String _ s' => last_char s'
  end.

(** [segs] are the pieces of [value] between its separators: joined by
    the separator they give [value] back, and none contains it. *)
Definition segments_of (sep : ascii) (value : string) (segs : list string) : Prop :=
  segs ≠ []
  ∧ JS.join (String sep "") segs = value
  ∧ Forall (λ seg, contains_char sep seg = false) segs.

(** [t] is [s] without the white space at its two ends. *)
Definition trimmed_of (s t : string) : Prop :=
  ∃ l r, s = l +:+ t +:+ r
    ∧ all_whitespace l = true ∧ all_whitespace r = true
    ∧ (∀ c, first_char t = Some c → JS.is_whitespace c = false)
    ∧ (∀ c, last_char t = Some c → JS.is_whitespace c = false).

End Spec.

(** ** Tabs strip (TabsView.tsx) *)

Module TabsView.

(** What [tabs.map] yields for one tab: the tab joined to the first host
    with its [hostId], or [null] ([None]) when there is none. *)
Definition entry (hosts : list Host.t) (tab : Tab.t) : option (Tab.t * Host.t) :=
  match list_find (λ h, Host.id h = Some (Tab.hostId tab)) hosts with
  | Some (_, host) => Some (tab, host)
  | None => None
  end.

Definition entries (tabs : list Tab.t) (hosts : list Host.t)
    : list (option (Tab.t * Host.t)) :=
  entry hosts <$> tabs.

(** The entries that reach the screen: a [null] child renders nothing. *)
Definition rendered (tabs : list Tab.t) (hosts : list Host.t)
    : list (Tab.t * Host.t) :=
  omap (entry hosts) tabs.

End TabsView.

(** ** Homebar (Homebar.tsx) *)

Module Homebar.

(** [activeHost.status === 'connected'] *)
Definition is_connected (h : Host.t) : bool :=
  bool_decide (Host.status h = Some connected).

(** The [disabled] flags of Connect, Disconnect, Reconnect and Edit. *)
Record Disabled := mkDisabled {
  Connect : bool;
  Disconnect : bool;
  Reconnect : bool;
  Edit : bool
}.

Definition disabled (activeHost : option Host.t) : Disabled :=
  match activeHost with
  | None => mkDisabled true true true true
  | Some h => mkDisabled (is_connected h) (negb (is_connected h)) false false
  end.

End Homebar.

(** ** Derived values and the remaining handlers of the root (App.tsx) *)

Module Root.

(** [tabs.find(t => t.isActive)] *)
Definition activeTab (st : App.t) : option Tab.t :=
  snd <$> list_find (λ x, Tab.isActive x) (App.tabs st).

(** [activeTab ? hosts.find(h => h.id === activeTab.hostId) : null] *)
Definition activeHost (st : App.t) : option Host.t :=
  match activeTab st with
  | Some x => snd <$> list_find (λ h, Host.id h = Some (Tab.hostId x)) (App.hosts st)
  | None => None
  end.

(** [tabs.length > 0 && <TabsView .../>] *)
Definition showsTabsView (st : App.t) : bool :=
  bool_decide (0 < length (App.tabs st)).

Definition setIsSidebarOpen v (st : App.t) : App.t :=
  App.mk (App.groups st) (App.hosts st) (App.tabs st) v (App.isSidebarPinned st)
    (App.isHomebarOpen st) (App.isEditorOpen st) (App.editingHost st).
Definition setIsSidebarPinned v (st : App.t) : App.t :=
  App.mk (App.groups st) (App.hosts st) (App.tabs st) (App.isSidebarOpen st) v
    (App.isHomebarOpen st) (App.isEditorOpen st) (App.editingHost st).
Definition setIsHomebarOpen v (st : App.t) : App.t :=
  App.mk (App.groups st) (App.hosts st) (App.tabs st) (App.isSidebarOpen st)
    (App.isSidebarPinned st) v (App.isEditorOpen st) (App.editingHost st).

(** Every callback the root hands to its children. *)
Inductive Event :=
  | ToggleSidebar
  | TogglePin
  | CollapseHomebar
  | ExpandHomebar
  | ToggleGroup (groupId : string)
  | Connect (now : N) (hostId : string)
  | CloseTab (tabId : string)
  | SelectTab (tabId : string)
  | NewHost
  | EditHost (host : Host.t)
  | SaveHost (now : N) (host : Host.t)
  | CloseEditor.

Definition handle (e : Event) (st : App.t) : App.t :=
  match e with
  | ToggleSidebar => setIsSidebarOpen (negb (App.isSidebarOpen st)) st
  | TogglePin => setIsSidebarPinned (negb (App.isSidebarPinned st)) st
  | CollapseHomebar => setIsHomebarOpen false st
  | ExpandHomebar => setIsHomebarOpen true st
  | ToggleGroup groupId => App.handleToggleGroup groupId st
  | Connect now hostId => App.handleConnect now hostId st
  | CloseTab tabId => App.handleCloseTab tabId st
  | SelectTab tabId => App.handleSelectTab tabId st
  | NewHost => App.handleNewHost st
  | EditHost host => App.handleEditHost host st
  | SaveHost now host => App.handleSaveHost now host st
  | CloseEditor => App.setIsEditorOpen false st
  end.

(** The state after a sequence of events. *)
Definition run (events : list Event) (st : App.t) : App.t :=
  foldl (λ st' e, handle e st') st events.

(** A [Connect] names a host of the list, as the rows of the sidebar do
    ([onConnect(host.id)]). *)
Fixpoint connects_listed (events : list Event) (st : App.t) : Prop :=
  match events with
  | [] => True
  | e :: events' =>
      match e with
      | Connect _ hostId => Some hostId ∈ Host.id <$> App.hosts st
      | _ => True
      end
      ∧ connects_listed events' (handle e st)
  end.

(** Every tab refers to a host of the list. *)
Definition resolvable (st : App.t) : Prop :=
  ∀ x, x ∈ App.tabs st → Some (Tab.hostId x) ∈ Host.id <$> App.hosts st.


End Root.

(** ** The host ids a sequence of events creates *)

Module HostLog.

(** The ids an event adds at the end of the host list: a save while no
    host is being edited adds the id made from the time read, no other
    event adds one. *)
Definition created_by (e : Root.Event) (st : App.t) : list (option string) :=
  match e, App.editingHost st with
  | Root.SaveHost now _, None => [Some ("h" +:+ pretty now)]
  | _, _ => []
  end.

(** The ids the events of a sequence add, in the order of the events. *)
Fixpoint created (events : list Root.Event) (st : App.t) : list (option string) :=
  match events with
  | [] => []
  | e :: events' => created_by e st ++ created events' (Root.handle e st)
  end.

End HostLog.

(** ** The search on text of every code point (Sidebar.tsx) *)

Module Wide.

(** A well-formed string as the list of its code points.  ([includes]
    compares code units; in well-formed strings an occurrence of one
    string in another starts and ends between two code points, so it is
    an occurrence among the code points.) *)
Definition text := list N.

(** The columns of the Unicode Character Database that lower-casing
    reads: the simple lower-case mapping of UnicodeData.txt (a character
    without one is mapped to itself), and the properties Cased and
    Case_Ignorable of DerivedCoreProperties.txt. *)
Record CaseTable := mkCaseTable {
  simple_lower : N → N;
  cased : N → bool;
  case_ignorable : N → bool
}.

(** [l] starts with case-ignorable characters, if any, and then a cased
    letter. *)
Fixpoint cased_ahead (T : CaseTable) (l : text) : bool :=
  match l with
  | [] => false
  | c :: l' => cased T c || (case_ignorable T c && cased_ahead T l')
  end.

(** The condition Final_Sigma of SpecialCasing.txt: the character is
    preceded by a cased letter and then case-ignorable characters, if
    any, and is not followed by case-ignorable characters, if any, and
    then a cased letter.  [before] holds the characters before it, the
    nearest first. *)
Definition final_sigma (T : CaseTable) (before after : text) : bool :=
  cased_ahead T before && negb (cased_ahead T after).

(** Lower-casing from a position of the string on: U+03A3 (capital
    sigma) under Final_Sigma becomes U+03C2 (final small sigma), U+0130
    (capital I with dot above) becomes U+0069 U+0307, every other
    character its simple lower-case mapping.  These are the mappings of
    SpecialCasing.txt and UnicodeData.txt that do not depend on the
    language. *)
Fixpoint lower_from (T : CaseTable) (before l : text) : text :=
  match l with
  | [] => []
  | c :: l' =>
      (if (c =? 931)%N && final_sigma T before l' then [962%N]
       else if (c =? 304)%N then [105%N; 775%N]
       else [simple_lower T c])
      ++ lower_from T (c :: before) l'
  end.

(** [String.prototype.toLowerCase] *)
Definition toLowerCase (T : CaseTable) (l : text) : text := lower_from T [] l.

(** [s.startsWith(q)] *)
Fixpoint startsWith (s q : text) {struct q} : bool :=
  match q, s with
  | [], _ => true
  | a :: q', b :: s' => (a =? b)%N && startsWith s' q'
  | _ :: _, [] => false
  end.

(** [s.includes(q)] *)
Fixpoint includes (s q : text) : bool :=
  startsWith s q ||
  match s with
  | [] => false
  | _ :: s' => includes s' q
  end.

(** The fields of a host that the search reads. *)
Record Searched := mkSearched {
  name : text;
  hostname : text;
  tags : option (list text)
}.

(** The predicate of [filteredHosts]. *)
Definition matches (T : CaseTable) (searchQuery : text) (h : Searched) : bool :=
  includes (toLowerCase T (name h)) (toLowerCase T searchQuery)
  || includes (toLowerCase T (hostname h)) (toLowerCase T searchQuery)
  || match tags h with
     | Some ts =>
         existsb (λ t, includes (toLowerCase T t) (toLowerCase T searchQuery)) ts
     | None => false
     end.

Definition filteredHosts (T : CaseTable) (hosts : list Searched)
    (searchQuery : text) : list Searched :=
  filter (λ h, matches T searchQuery h) hosts.

(** [searchQuery ? filteredHosts.map(...) : ...]: the flat list of the
    tree view; [None] stands for the browse view, which
    [Sidebar.treeView] gives. *)
Definition treeView (T : CaseTable) (hosts : list Searched)
    (searchQuery : text) : option (list Searched) :=
  if bool_decide (searchQuery ≠ []) then Some (filteredHosts T hosts searchQuery)
  else None.

(** The rows of the database for U+0000..U+00FF and for the Greek
    letters U+0391..U+03A9 and U+03B1..U+03C9; a character of another
    row is taken without case. *)
Definition latin_greek : CaseTable := {|
  simple_lower n :=
    if ((65 <=? n) && (n <=? 90)
        || (192 <=? n) && (n <=? 222) && negb (n =? 215)
        || (913 <=? n) && (n <=? 937) && negb (n =? 930))%N
    then (n + 32)%N else n;
  cased n :=
    ((65 <=? n) && (n <=? 90) || (97 <=? n) && (n <=? 122)
     || (n =? 170) || (n =? 181) || (n =? 186)
     || (192 <=? n) && (n <=? 214) || (216 <=? n) && (n <=? 246)
     || (248 <=? n) && (n <=? 255)
     || (913 <=? n) && (n <=? 937) && negb (n =? 930)
     || (945 <=? n) && (n <=? 969))%N;
  case_ignorable n :=
    ((n =? 39) || (n =? 46) || (n =? 58) || (n =? 94) || (n =? 96)
     || (n =? 168) || (n =? 173) || (n =? 175) || (n =? 180)
     || (n =? 183) || (n =? 184))%N
|}.

(** A string of code units in U+0000..U+00FF as text. *)
Fixpoint of_string (s : string) : text :=
  match s with
  | EmptyString => []
  | String c s' => N_of_ascii c :: of_string s'
  end.


(** *** Words for the search *)

(** Two characters that are one letter up to case: their lower-case
    forms are the same character. *)
Definition same_letter (T : CaseTable) (a b : N) : Prop :=
  simple_lower T a = simple_lower T b.

(** [s] contains [q] as a case-insensitive substring. *)
Definition ci_contains (T : CaseTable) (s q : text) : Prop :=
  ∃ pre mid post, s = pre ++ mid ++ post ∧ Forall2 (same_letter T) mid q.

(** The hosts a search for [q] is to list. *)
Definition host_matches (T : CaseTable) (q : text) (h : Searched) : Prop :=
  ci_contains T (name h) q
  ∨ ci_contains T (hostname h) q
  ∨ ∃ ts t, tags h = Some ts ∧ t ∈ ts ∧ ci_contains T t q.


(** Text that [toLowerCase] converts character by character: no capital
    sigma in final position, no capital I with dot above. *)
Definition per_character (T : CaseTable) (l : text) : Prop :=
  toLowerCase T l = simple_lower T <$> l.


(** Text without U+03A3 and U+0130. *)
Definition plain (l : text) : Prop := (931%N ∉ l) ∧ (304%N ∉ l).

Definition plain_host (h : Searched) : Prop :=
  plain (name h) ∧ plain (hostname h)
  ∧ ∀ ts t, tags h = Some ts → t ∈ ts → plain t.

End Wide.

(** ** A session of the host editor (HostEditor.tsx) *)

Module Session.

(** One change event: of an input bound to [handleChange], or of the tags
    input. *)
Inductive Input :=
  | change (field : HostEditor.Field) (value : string)
  | tags (value : string).

Definition input (i : Input) (formData : Host.t) : Host.t :=
  match i with
  | change field value => HostEditor.handleChange field value formData
  | tags value => HostEditor.tags_onChange value formData
  end.

(** The form data after the editor was mounted on [host] and received
    [inputs]. *)
Definition formData (host : option Host.t) (inputs : list Input) : Host.t :=
  foldl (λ fd i, input i fd) (HostEditor.initialFormData host) inputs.

(** [value={formData.tags?.join(', ')}]: the text the tags input shows;
    [undefined] shows as the empty text. *)
Definition tagsValue (formData : Host.t) : string :=
  match Host.tags formData with
  | Some ts => JS.join ", " ts
  | None => ""
  end.

(** [value={formData.port}]: the text the port input shows for an
    integer port below 2^53 in magnitude, where a number is exact and is
    shown in plain decimal. *)
Definition portValue (formData : Host.t) : string :=
  pretty (Host.port formData).

End Session.

(** ** Terminal view (Terminal.tsx) *)

Module Terminal.

(** The lines the effect sets for [host].  [now] and [lastLogin] are the
    texts [toUTCString()] returns for the current time and for the time a
    day before; the port is an integer below 2^53 in magnitude, shown in
    plain decimal. *)
Definition lines (host : Host.t) (now lastLogin : string) : list string :=
  [ "Connecting to " +:+ Host.user host +:+ "@" +:+ Host.hostname host +:+ ":" +:+ pretty (Host.port host) +:+ "...";
    "Welcome to Ubuntu 22.04.3 LTS (GNU/Linux 5.15.0-82-generic x86_64)";
    "";
    " * Documentation:  https://help.ubuntu.com";
    " * Management:     https://landscape.canonical.com";
    " * Support:        https://ubuntu.com/advantage";
    "";
    "System information as of " +:+ now;
    "";
    "  System load:  0.01               Processes:             112";
    "  Usage of /:   24.5% of 48.97GB   Users logged in:       1";
    "  Memory usage: 12%                IPv4 address for eth0: " +:+ Host.hostname host;
    "  Swap usage:   0%";
    "";
    "Last login: " +:+ lastLogin +:+ " from 192.168.1.50";
    Host.user host +:+ "@" +:+ Host.name host +:+ ":~$ " ].

(** [line.includes('~$')]: the line is drawn as the prompt. *)
Definition isPrompt (line : string) : bool := JS.includes line "~$".

End Terminal.

(** * Evaluation of the primitives *)

Example parseInt_8080 : JS.parseInt "8080" = Some 8080%Z. Proof. reflexivity. Qed.
Example parseInt_ws : JS.parseInt "  42px" = Some 42%Z. Proof. reflexivity. Qed.
Example parseInt_hex : JS.parseInt "0x1F" = Some 31%Z. Proof. reflexivity. Qed.
Example parseInt_abc : JS.parseInt "abc" = None. Proof. reflexivity. Qed.
Example parseInt_neg : JS.parseInt "-5" = Some (-5)%Z. Proof. reflexivity. Qed.
Example split_ex : JS.split "," "a,,b," = ["a"; ""; "b"; ""]. Proof. reflexivity. Qed.
Example trim_ex : JS.trim "  linux  " = "linux". Proof. reflexivity. Qed.
Example lower_ex : JS.toLowerCase "LabVM01" = "labvm01". Proof. reflexivity. Qed.
Example includes_ex : JS.includes "labvm01" "bv" = true. Proof. reflexivity. Qed.
Example parseInt_float : JS.parseInt "1.5" = Some 1%Z. Proof. reflexivity. Qed.
Example parseInt_plus : JS.parseInt "+7" = Some 7%Z. Proof. reflexivity. Qed.
Example parseInt_neg_hex : JS.parseInt "-0x10" = Some (-16)%Z. Proof. reflexivity. Qed.
Example parseInt_0x : JS.parseInt "0x" = None. Proof. reflexivity. Qed.
Example parseInt_empty : JS.parseInt "" = None. Proof. reflexivity. Qed.
Example number_or_zero : JS.number_or (JS.parseInt "0") 22 = 22%Z. Proof. reflexivity. Qed.

(** ["AΣ".toLowerCase()] is ["aς"], ["Σ".toLowerCase()] is ["σ"],
    ["ΣΑΣ".toLowerCase()] is ["σας"], and ["Σ."] after a letter keeps the
    final form: the full stop is case-ignorable. *)
Example lower_final_sigma :
  Wide.toLowerCase Wide.latin_greek [65; 931]%N = [97; 962]%N.
Proof. reflexivity. Qed.
Example lower_lone_sigma :
  Wide.toLowerCase Wide.latin_greek [931]%N = [963]%N.
Proof. reflexivity. Qed.
Example lower_sigma_word :
  Wide.toLowerCase Wide.latin_greek [931; 913; 931]%N = [963; 945; 962]%N.
Proof. reflexivity. Qed.
Example lower_sigma_stop :
  Wide.toLowerCase Wide.latin_greek [913; 931; 46; 913]%N = [945; 963; 46; 945]%N
  ∧ Wide.toLowerCase Wide.latin_greek [913; 931; 46]%N = [945; 962; 46]%N.
Proof. split; reflexivity. Qed.
Example lower_latin1 :
  Wide.toLowerCase Wide.latin_greek (Wide.of_string "LabVM01")
  = Wide.of_string "labvm01".
Proof. reflexivity. Qed.
Example search_sigma :
  Wide.includes (Wide.toLowerCase Wide.latin_greek [65; 931]%N)
    (Wide.toLowerCase Wide.latin_greek [931]%N) = false.
Proof. reflexivity. Qed.


(** Closes a decidable goal about concrete data by evaluation. *)
Ltac by_evaluation := apply (bool_decide_unpack _); vm_compute; exact I.

(** * Strings *)

Section strings.
Import Spec.
Implicit Types (s t q : string) (c : ascii).

Lemma app_nil_l s : "" +:+ s = s.
Proof. reflexivity. Qed.

Lemma app_cons c s t : String c s +:+ t = String c (s +:+ t).
Proof. reflexivity. Qed.

Lemma app_nil_r s : s +:+ "" = s.
Proof. induction s as [|c s IH]; [done|]. by rewrite app_cons, IH. Qed.

Lemma app_assoc s t q : (s +:+ t) +:+ q = s +:+ (t +:+ q).
Proof. induction s as [|c s IH]; [done|]. by rewrite !app_cons, IH. Qed.

(** ** split *)

Lemma split_nonempty sep s : JS.split sep s ≠ [].
Proof.
  destruct s as [|c s]; simpl; [done|].
  case_bool_decide; [done|]. by destruct (JS.split sep s).
Qed.

Lemma join_cons sep s l :
  l ≠ [] → JS.join sep (s :: l) = s +:+ sep +:+ JS.join sep l.
Proof. by destruct l. Qed.

Lemma split_join sep s : JS.join (String sep "") (JS.split sep s) = s.
Proof.
  induction s as [|c s IH]; simpl; [done|].
  case_bool_decide as Hc.
  - rewrite join_cons by apply split_nonempty. by rewrite IH, Hc.
  - pose proof (split_nonempty sep s) as Hne.
    destruct (JS.split sep s) as [|seg rest]; [done|].
    destruct rest as [|seg' rest].
    + simpl in *. by rewrite IH.
    + rewrite join_cons by done. rewrite join_cons in IH by done.
      by rewrite app_cons, IH.
Qed.

Lemma split_no_sep sep s :
  Forall (λ seg, contains_char sep seg = false) (JS.split sep s).
Proof.
  induction s as [|c s IH]; simpl; [by repeat constructor|].
  case_bool_decide as Hc; [by constructor|].
  pose proof (split_nonempty sep s) as Hne.
  destruct (JS.split sep s) as [|seg rest]; [done|].
  apply Forall_cons in IH as [Hseg Hrest]. constructor; [|done].
  simpl. by rewrite bool_decide_eq_false_2.
Qed.

Lemma split_segments sep s : segments_of sep s (JS.split sep s).
Proof.
  split_and!; [apply split_nonempty|apply split_join|apply split_no_sep].
Qed.

(** ** trim *)

Lemma trimStart_spec s :
  ∃ l, s = l +:+ JS.trimStart s ∧ all_whitespace l = true
       ∧ ∀ c, first_char (JS.trimStart s) = Some c → JS.is_whitespace c = false.
Proof.
  induction s as [|c s (l & Hs & Hl & Hfirst)]; simpl.
  - by exists "".
  - destruct (JS.is_whitespace c) eqn:Hc.
    + exists (String c l). rewrite app_cons, <-Hs. simpl. by rewrite Hc, Hl.
    + exists "". split_and!; [done..|]. by intros ? [= <-].
Qed.

Lemma trimEnd_spec s :
  ∃ r, s = JS.trimEnd s +:+ r ∧ all_whitespace r = true
       ∧ ∀ c, last_char (JS.trimEnd s) = Some c → JS.is_whitespace c = false.
Proof.
  induction s as [|c s (r & Hs & Hr & Hlast)]; simpl.
  - by exists "".
  - destruct (JS.trimEnd s) as [|a t] eqn:Ht.
    + rewrite app_nil_l in Hs. subst r. destruct (JS.is_whitespace c) eqn:Hc.
      * exists (String c s). simpl. by rewrite Hc, Hr.
      * exists s. split_and!; [done..|]. by intros ? [= <-].
    + exists r. split_and!; [|done..]. by rewrite app_cons, <-Hs.
Qed.

Lemma first_char_trimEnd s c :
  first_char (JS.trimEnd s) = Some c → first_char s = Some c.
Proof.
  destruct s as [|b s]; simpl; [done|].
  destruct (JS.trimEnd s); [|done]. by destruct (JS.is_whitespace b).
Qed.

Lemma trim_spec s : trimmed_of s (JS.trim s).
Proof.
  unfold JS.trim.
  destruct (trimStart_spec s) as (l & Hs & Hl & Hfirst).
  destruct (trimEnd_spec (JS.trimStart s)) as (r & Ht & Hr & Hlast).
  exists l, r. split_and!; [|done..| |done].
  - by rewrite <-Ht.
  - intros c Hc. by apply Hfirst, first_char_trimEnd.
Qed.

Lemma trim_segments (segs : list string) :
  Forall2 trimmed_of segs (JS.trim <$> segs).
Proof.
  induction segs; constructor; [apply trim_spec|done].
Qed.
End strings.

(** * The pieces of a string are determined *)

Section unique.
Import Spec.
Implicit Types (s t : string) (c sep : ascii).

Lemma split_no_sep_id sep s :
  contains_char sep s = false → JS.split sep s = [s].
Proof.
  induction s as [|c s IH]; simpl; [done|].
  intros [Hc Hs]%orb_false_iff. apply bool_decide_eq_false in Hc.
  rewrite bool_decide_eq_false_2 by done. by rewrite IH.
Qed.

Lemma split_app_sep sep s t :
  contains_char sep s = false →
  JS.split sep (s +:+ String sep t) = s :: JS.split sep t.
Proof.
  induction s as [|c s IH]; simpl.
  - intros _. by rewrite bool_decide_eq_true_2.
  - intros [Hc Hs]%orb_false_iff. apply bool_decide_eq_false in Hc.
    rewrite bool_decide_eq_false_2 by done. by rewrite IH.
Qed.

(** The pieces between the separators are those [split] returns. *)
Lemma segments_unique sep value segs :
  segments_of sep value segs → segs = JS.split sep value.
Proof.
  intros (Hne & <- & Hsegs).
  induction segs as [|s segs IH]; [done|].
  apply Forall_cons in Hsegs as [Hs Hsegs].
  destruct segs as [|s' segs].
  - simpl. by rewrite split_no_sep_id.
  - rewrite join_cons by done.
    rewrite app_cons, app_nil_l, split_app_sep by done. by rewrite <-IH.
Qed.

Lemma trimStart_whitespace l s :
  all_whitespace l = true → JS.trimStart (l +:+ s) = JS.trimStart s.
Proof.
  induction l as [|c l IH]; [done|]. simpl.
  intros [Hc Hl]%andb_true_iff. by rewrite Hc, IH.
Qed.

Lemma trimStart_all_whitespace r :
  all_whitespace r = true → JS.trimStart r = "".
Proof.
  intros Hr. rewrite <-(app_nil_r r), trimStart_whitespace by done. done.
Qed.

Lemma trimEnd_all_whitespace r :
  all_whitespace r = true → JS.trimEnd r = "".
Proof.
  induction r as [|c r IH]; [done|]. simpl.
  intros [Hc Hr]%andb_true_iff. by rewrite IH, Hc.
Qed.

Lemma trimEnd_whitespace t r :
  all_whitespace r = true →
  (∀ c, last_char t = Some c → JS.is_whitespace c = false) →
  JS.trimEnd (t +:+ r) = t.
Proof.
  intros Hr. induction t as [|c t IH]; intros Hlast.
  - by apply trimEnd_all_whitespace.
  - rewrite app_cons. simpl. destruct t as [|c' t].
    + rewrite app_nil_l, trimEnd_all_whitespace by done.
      by rewrite (Hlast c eq_refl).
    + rewrite IH by done. done.
Qed.

(** A string has one trimmed form, the one [trim] returns. *)
Lemma trimmed_unique s t : trimmed_of s t → t = JS.trim s.
Proof.
  intros (l & r & -> & Hl & Hr & Hfirst & Hlast). unfold JS.trim.
  rewrite trimStart_whitespace by done. destruct t as [|c t].
  - rewrite app_nil_l, trimStart_all_whitespace by done. done.
  - rewrite app_cons. simpl. rewrite (Hfirst c eq_refl).
    rewrite <-app_cons. by rewrite trimEnd_whitespace.
Qed.

Lemma trimmed_all_unique (segs trimmed : list string) :
  Forall2 trimmed_of segs trimmed → trimmed = JS.trim <$> segs.
Proof.
  induction 1 as [|s t segs trimmed Hst _ IH]; [done|].
  rewrite fmap_cons. by rewrite (trimmed_unique s t), IH.
Qed.
End unique.


(** * The tags field *)

Section tags.
Import Spec.

(** C9. For every string entered in the Tags field, the form's tag list
    becomes, whatever it was, the list obtained by cutting the string at
    its commas, trimming each piece and dropping the empty pieces, in the
    order of the pieces; no other field changes.  The pieces and their
    trimmed forms exist and are determined by the string.  The entry
    [prod, web,  linux ,] gives the three tags prod, web, linux. *)
Theorem C9_tags value formData :
  Host.tags (HostEditor.tags_onChange value formData)
    = Some (HostEditor.parseTags value)
  ∧ Host.set_tags (Host.tags formData)
      (HostEditor.tags_onChange value formData) = formData
  ∧ (∃ segs trimmed,
       segments_of "," value segs ∧ Forall2 trimmed_of segs trimmed)
  ∧ (∀ segs trimmed,
       segments_of "," value segs → Forall2 trimmed_of segs trimmed →
       HostEditor.parseTags value = filter (λ t, t ≠ "") trimmed)
  ∧ HostEditor.parseTags "prod, web,  linux ," = ["prod"; "web"; "linux"].
Proof.
  split_and!; [done|by destruct formData| | |reflexivity].
  - exists (JS.split "," value), (JS.trim <$> JS.split "," value).
    split; [apply split_segments|apply trim_segments].
  - intros segs trimmed Hsegs Htrimmed.
    apply segments_unique in Hsegs as ->.
    by apply trimmed_all_unique in Htrimmed as ->.
Qed.

(** The pieces of the entry of the specification, and their trimmed
    forms. *)
Lemma C9_witness :
  segments_of "," "prod, web,  linux ," ["prod"; " web"; "  linux "; ""]
  ∧ Forall2 trimmed_of ["prod"; " web"; "  linux "; ""] ["prod"; "web"; "linux"; ""]
  ∧ HostEditor.parseTags "prod, web,  linux ,"
    = filter (λ t, t ≠ "") ["prod"; "web"; "linux"; ""].
Proof.
  assert (segments_of "," "prod, web,  linux ," ["prod"; " web"; "  linux "; ""])
    as Hsegs.
  { split_and!; [done|reflexivity|by repeat constructor]. }
  assert (Forall2 trimmed_of ["prod"; " web"; "  linux "; ""]
            ["prod"; "web"; "linux"; ""]) as Htrimmed.
  { apply (trim_segments ["prod"; " web"; "  linux "; ""]). }
  split_and!; [exact Hsegs|exact Htrimmed|].
  destruct (C9_tags "prod, web,  linux ," (HostEditor.initialFormData None))
    as (_ & _ & _ & Hall & _).
  exact (Hall _ _ Hsegs Htrimmed).
Defined.
End tags.

(** * The host editor *)

Section editor.
Local Open Scope Z_scope.

(** No input of the form writes the id: the form keeps the id it was
    mounted with, that of the host under edit or none. *)
Lemma id_handleChange field value prev :
  Host.id (HostEditor.handleChange field value prev) = Host.id prev.
Proof. by destruct field. Qed.

Lemma id_tags_onChange value formData :
  Host.id (HostEditor.tags_onChange value formData) = Host.id formData.
Proof. reflexivity. Qed.













(** C6. Submitting the form while [name] or [hostname] is empty changes
    nothing: whatever the save callback is, it is not run (a callback
    that counts its runs stays at zero); under the root, the host list
    and the editor-open flag are what they were. *)
Theorem C6_empty_submit formData :
  Host.name formData = "" ∨ Host.hostname formData = "" →
  (∀ (S : Type) (onSave : Host.t → S → S) (st : S),
     HostEditor.handleSubmit onSave formData st = st)
  ∧ HostEditor.handleSubmit (λ _ runs, Datatypes.S runs) formData 0%nat = 0%nat
  ∧ ∀ now st,
      App.submitEditor now formData st = st
      ∧ App.hosts (App.submitEditor now formData st) = App.hosts st
      ∧ App.isEditorOpen (App.submitEditor now formData st)
        = App.isEditorOpen st.
Proof.
  intros Hempty.
  assert (∀ (S : Type) (onSave : Host.t → S → S) (st : S),
     HostEditor.handleSubmit onSave formData st = st) as Hskip.
  { intros S onSave st. unfold HostEditor.handleSubmit.
    destruct Hempty as [->| ->]; simpl; [done|].
    by rewrite orb_true_r. }
  split_and!; [done|apply Hskip|].
  intros now st. unfold App.submitEditor. by rewrite Hskip.
Qed.

Lemma C6_witness :
  let formData := HostEditor.handleChange HostEditor.name "edge-01"
                    (HostEditor.initialFormData None) in
  (Host.name formData = "" ∨ Host.hostname formData = "")
  ∧ App.submitEditor 7 formData (App.handleNewHost App.initial)
    = App.handleNewHost App.initial.
Proof.
  assert (Host.name (HostEditor.handleChange HostEditor.name "edge-01"
                       (HostEditor.initialFormData None)) = ""
          ∨ Host.hostname (HostEditor.handleChange HostEditor.name "edge-01"
                       (HostEditor.initialFormData None)) = "") as Hempty.
  { right. reflexivity. }
  split; [exact Hempty|].
  apply (C6_empty_submit _ Hempty).
Defined.
End editor.

(** * The sidebar *)

Section search.
Import Spec.
Implicit Types (s t q : string) (a b c : ascii).

Lemma is_upper_spec c :
  JS.is_upper c = true ↔
  ((65 ≤ N_of_ascii c ≤ 90)
   ∨ (192 ≤ N_of_ascii c ≤ 222 ∧ N_of_ascii c ≠ 215))%N.
Proof.
  unfold JS.is_upper.
  rewrite orb_true_iff, !andb_true_iff, negb_true_iff, !N.leb_le, N.eqb_neq.
  tauto.
Qed.

Lemma is_upper_lower_code c :
  JS.is_upper c = true →
  N_of_ascii (JS.lower_char c) = (N_of_ascii c + 32)%N
  ∧ JS.is_upper (JS.lower_char c) = false.
Proof.
  intros Hup. unfold JS.lower_char. rewrite Hup.
  apply is_upper_spec in Hup.
  assert (N_of_ascii c + 32 < 256)%N as Hlt by lia.
  split; [by apply N_ascii_embedding|].
  apply not_true_iff_false. rewrite is_upper_spec.
  rewrite N_ascii_embedding by done. lia.
Qed.

Lemma N_of_ascii_inj a b : N_of_ascii a = N_of_ascii b → a = b.
Proof.
  intros H. by rewrite <-(ascii_N_embedding a), <-(ascii_N_embedding b), H.
Qed.

Lemma lower_char_eq a b :
  JS.lower_char a = JS.lower_char b ↔ same_letter a b.
Proof.
  destruct (JS.is_upper a) eqn:Ha, (JS.is_upper b) eqn:Hb.
  - destruct (is_upper_lower_code a Ha) as [Hla _].
    destruct (is_upper_lower_code b Hb) as [Hlb _]. split.
    + intros Heq. left. apply N_of_ascii_inj.
      rewrite Heq, Hlb in Hla. lia.
    + apply is_upper_spec in Ha, Hb.
      intros [->|[[_ Hn]|[_ Hn]]]; [done|exfalso..]; lia.
  - destruct (is_upper_lower_code a Ha) as [Hla _].
    assert (JS.lower_char b = b) as Hlb by (unfold JS.lower_char; by rewrite Hb).
    rewrite Hlb. split.
    + intros <-. right. left. done.
    + intros [->|[[_ Hn]|[? _]]]; [congruence| |congruence].
      apply N_of_ascii_inj. by rewrite Hla.
  - destruct (is_upper_lower_code b Hb) as [Hlb _].
    assert (JS.lower_char a = a) as Hla by (unfold JS.lower_char; by rewrite Ha).
    rewrite Hla. split.
    + intros ->. right. right. done.
    + intros [->|[[? _]|[_ Hn]]]; [congruence|congruence|].
      apply N_of_ascii_inj. by rewrite Hlb.
  - unfold JS.lower_char. rewrite Ha, Hb. split.
    + intros ->. by left.
    + intros [->|[[? _]|[? _]]]; [done|congruence..].
Qed.

Lemma toLowerCase_eq s t :
  JS.toLowerCase s = JS.toLowerCase t ↔ ci_eq s t.
Proof.
  split.
  - revert t. induction s as [|a s IH]; intros [|b t]; simpl; try done.
    + constructor.
    + intros [= Hab Hst]. constructor; [by apply lower_char_eq|by apply IH].
  - induction 1 as [|a b s t Hab _ IH]; simpl; [done|].
    apply lower_char_eq in Hab. by rewrite Hab, IH.
Qed.




End search.

(** * The search on text of every code point *)

Section wide_search.
Implicit Types (T : Wide.CaseTable) (l s q : Wide.text) (h : Wide.Searched).

(** Without capital sigma and capital I with dot above, lower-casing
    does not look at the context. *)
Lemma lower_from_plain T l : ∀ before,
  Wide.plain l → Wide.lower_from T before l = Wide.simple_lower T <$> l.
Proof.
  induction l as [|c l IH]; intros before [Hsigma Hdot]; [done|].
  apply not_elem_of_cons in Hsigma as [Hc1 Hsigma].
  apply not_elem_of_cons in Hdot as [Hc2 Hdot].
  simpl.
  rewrite (proj2 (N.eqb_neq c 931)), (proj2 (N.eqb_neq c 304)) by congruence.
  simpl. by rewrite IH.
Qed.

Lemma plain_per_character T l : Wide.plain l → Wide.per_character T l.
Proof. apply lower_from_plain. Qed.

Lemma plain_app l1 l2 : Wide.plain (l1 ++ l2) ↔ Wide.plain l1 ∧ Wide.plain l2.
Proof. unfold Wide.plain. rewrite !not_elem_of_app. tauto. Qed.

Lemma startsWith_wide q : ∀ s,
  Wide.startsWith s q = true ↔ ∃ post, s = q ++ post.
Proof.
  induction q as [|a q IH]; intros s; simpl.
  - split; [by exists s|done].
  - destruct s as [|b s].
    + split; [done|]. by intros [post Hs].
    + rewrite andb_true_iff, N.eqb_eq, IH. split.
      * intros [-> [post ->]]. by exists post.
      * intros [post [= -> ->]]. split; [done|by exists post].
Qed.

Lemma includes_wide s q :
  Wide.includes s q = true ↔ ∃ pre post, s = pre ++ q ++ post.
Proof.
  induction s as [|c s IH].
  - change (Wide.includes [] q) with (Wide.startsWith [] q || false).
    rewrite orb_false_r, startsWith_wide. split.
    + intros [post Hs]. by exists [], post.
    + intros ([|??] & post & Hs); [|done]. by exists post.
  - change (Wide.includes (c :: s) q)
      with (Wide.startsWith (c :: s) q || Wide.includes s q).
    rewrite orb_true_iff, startsWith_wide, IH. split.
    + intros [[post Hs]|(pre & post & ->)].
      * by exists [], post.
      * by exists (c :: pre), post.
    + intros ([|c' pre] & post & Hs).
      * left. by exists post.
      * right. injection Hs as <- ->. by exists pre, post.
Qed.





(** A longer query is found only where a part of it is. *)
Lemma includes_longer_wide s p q r :
  Wide.includes s (p ++ q ++ r) = true → Wide.includes s q = true.
Proof.
  rewrite !includes_wide. intros (pre & post & ->).
  exists (pre ++ p), (r ++ post). by rewrite <-!List.app_assoc.
Qed.

Lemma matches_longer_wide T p q r h :
  Wide.plain (p ++ q ++ r) →
  Wide.matches T (p ++ q ++ r) h = true → Wide.matches T q h = true.
Proof.
  intros Hplain.
  assert (Wide.plain q) as Hq.
  { apply plain_app in Hplain as [_ Hqr]. by apply plain_app in Hqr as [Hq _]. }
  unfold Wide.matches.
  rewrite (plain_per_character T _ Hplain), (plain_per_character T _ Hq).
  rewrite !fmap_app, !orb_true_iff.
  intros [[Hname|Hhostname]|Htags].
  - left. left. by eapply includes_longer_wide.
  - left. right. by eapply includes_longer_wide.
  - right. destruct (Wide.tags h) as [ts|]; [|done].
    apply existsb_exists in Htags as (t & Hin & Ht). apply existsb_exists.
    exists t. split; [done|].
    rewrite (plain_per_character T _ Hplain), !fmap_app in Ht.
    rewrite (plain_per_character T _ Hq). by eapply includes_longer_wide.
Qed.







End wide_search.

Section search_claim.
Import Spec.



End search_claim.

Section browse.
Import Spec.

(** C8. With an empty search query the tree view is the browse view,
    and in it: a host of the list with no group id (absent or empty) is
    in the trailing ungrouped section, which is the same list whatever
    the groups and their expanded flags are; a host whose group id is
    that of no group is neither in the ungrouped section nor among the
    members listed under any group. *)
Theorem C8_browse groups hosts :
  ∃ groupRows ungrouped,
    Sidebar.treeView groups hosts "" = Sidebar.Browse groupRows ungrouped
    ∧ (∀ h, h ∈ hosts →
         Host.groupId h = None ∨ Host.groupId h = Some "" → h ∈ ungrouped)
    ∧ (∀ groups', ∃ groupRows',
         Sidebar.treeView groups' hosts "" = Sidebar.Browse groupRows' ungrouped)
    ∧ (∀ h g, Host.groupId h = Some g → g ≠ "" → g ∉ Group.id <$> groups →
         (h ∉ ungrouped)
         ∧ ∀ group members, (group, Some members) ∈ groupRows → h ∉ members).
Proof.
  eexists _, _. split_and!; [reflexivity| | |].
  - intros h Hin Hno. apply list_elem_of_filter. split; [|done].
    unfold Sidebar.no_groupId. by destruct Hno as [-> | ->].
  - intros groups'. by eexists.
  - intros h g Hg Hne Hnin. split.
    + intros [Hno _]%list_elem_of_filter. unfold Sidebar.no_groupId in Hno.
      rewrite Hg in Hno. by apply bool_decide_unpack in Hno.
    + intros group members (group' & Heq & Hgroup)%list_elem_of_fmap.
      injection Heq as -> Hmembers.
      destruct (Group.isExpanded group'); [|done].
      injection Hmembers as ->.
      intros [Hid _]%list_elem_of_filter. apply Hnin.
      apply list_elem_of_fmap. exists group'. split; [congruence|done].
Qed.

(** The seeded hosts and a host of an unknown group [g9]: the latter is
    listed nowhere, the host without a group id closes the view. *)
Example browse_seeded :
  let router := Host.mk (Some "h5") "router-home" "192.168.0.1" "admin" 22%Z
                  None (Some idle) None None None in
  let stray := Host.mk (Some "h6") "stray" "10.9.9.9" "root" 22%Z
                 (Some "g9") (Some idle) None None None in
  Sidebar.treeView App.INITIAL_GROUPS (App.INITIAL_HOSTS ++ [stray]) ""
  = Sidebar.Browse
      [(Group.mk "g1" "Production" true,
        Some (take 2 App.INITIAL_HOSTS));
       (Group.mk "g2" "Staging" true,
        Some (take 1 (drop 2 App.INITIAL_HOSTS)));
       (Group.mk "g3" "Lab" false, None)]
      [router].
Proof. reflexivity. Qed.
End browse.

(** * Tabs *)

Section tabs.
Import Spec.
Implicit Types (l : list Tab.t) (x : Tab.t) (k : string).

Lemma activeCount_cons x l :
  activeCount (x :: l) = ((if Tab.isActive x then 1 else 0) + activeCount l)%nat.
Proof.
  unfold activeCount. rewrite filter_cons.
  destruct (Tab.isActive x); by case_decide.
Qed.

Lemma activeCount_app l1 l2 :
  activeCount (l1 ++ l2) = (activeCount l1 + activeCount l2)%nat.
Proof. unfold activeCount. by rewrite filter_app, length_app. Qed.

Lemma activeCount_deactivate l :
  activeCount (Tab.set_isActive false <$> l) = 0.
Proof.
  induction l as [|x l IH]; [done|].
  rewrite fmap_cons, activeCount_cons. by rewrite IH.
Qed.

Lemma id_set_isActive (f : Tab.t → bool) l :
  Tab.id <$> ((λ x, Tab.set_isActive (f x) x) <$> l) = Tab.id <$> l.
Proof. rewrite <-list_fmap_compose. by apply list_fmap_ext. Qed.

Lemma activeCount_select_absent k l :
  k ∉ Tab.id <$> l →
  activeCount ((λ x, Tab.set_isActive (bool_decide (Tab.id x = k)) x) <$> l) = 0.
Proof.
  induction l as [|x l IH]; [done|].
  rewrite fmap_cons, not_elem_of_cons. intros [Hne Hl].
  rewrite fmap_cons, activeCount_cons. simpl.
  rewrite bool_decide_eq_false_2 by done. by rewrite IH.
Qed.

Lemma activeCount_select_present k l :
  NoDup (Tab.id <$> l) → k ∈ Tab.id <$> l →
  activeCount ((λ x, Tab.set_isActive (bool_decide (Tab.id x = k)) x) <$> l) = 1.
Proof.
  induction l as [|x l IH]; [intros _ H; by apply elem_of_nil in H|].
  rewrite fmap_cons, NoDup_cons, elem_of_cons. intros [Hx Hnd] Hk.
  rewrite fmap_cons, activeCount_cons. simpl.
  destruct (decide (Tab.id x = k)) as [<-|Hne].
  - rewrite bool_decide_eq_true_2 by done.
    by rewrite activeCount_select_absent.
  - rewrite bool_decide_eq_false_2 by done.
    destruct Hk as [->|Hk]; [done|]. by rewrite IH.
Qed.
End tabs.

(** * The tab handlers *)

Section handlers.
Import Spec.
Implicit Types (st : App.t) (l pre post : list Tab.t) (x : Tab.t).

Lemma filter_id_absent (tabId : string) l :
  tabId ∉ Tab.id <$> l → filter (λ x, Tab.id x ≠ tabId) l = l.
Proof.
  induction l as [|x l IH]; [done|].
  rewrite fmap_cons, not_elem_of_cons. intros [Hne Hl].
  rewrite filter_cons_True by (intros ?; by apply Hne). by rewrite IH.
Qed.

Lemma find_id_absent (tabId : string) l :
  tabId ∉ Tab.id <$> l → list_find (λ x, Tab.id x = tabId) l = None.
Proof.
  intros Hl. apply list_find_None, Forall_forall. intros x Hx Heq.
  apply Hl, list_elem_of_fmap. by exists x.
Qed.

Lemma find_hostId_absent (hostId : string) l :
  hostId ∉ Tab.hostId <$> l → list_find (λ x, Tab.hostId x = hostId) l = None.
Proof.
  intros Hl. apply list_find_None, Forall_forall. intros x Hx Heq.
  apply Hl, list_elem_of_fmap. by exists x.
Qed.

Lemma find_hostId_present (hostId : string) l :
  hostId ∈ Tab.hostId <$> l →
  ∃ i x, list_find (λ x, Tab.hostId x = hostId) l = Some (i, x)
         ∧ l !! i = Some x ∧ Tab.hostId x = hostId.
Proof.
  intros (x & Hx & Hin)%list_elem_of_fmap.
  destruct (list_find_elem_of (λ x, Tab.hostId x = hostId) l x Hin)
    as [[i y] Hfind]; [done|].
  exists i, y. split; [done|].
  apply list_find_Some in Hfind as (? & ? & _). done.
Qed.

(** A list with pairwise distinct ids splits around the tab of a given
    id, which occurs on neither side. *)
Lemma split_at_id (tabId : string) l :
  NoDup (Tab.id <$> l) → tabId ∈ Tab.id <$> l →
  ∃ pre x post, l = pre ++ (x :: post) ∧ Tab.id x = tabId
                ∧ (tabId ∉ Tab.id <$> pre) ∧ (tabId ∉ Tab.id <$> post).
Proof.
  intros Hnd (x & -> & Hin)%list_elem_of_fmap.
  apply list_elem_of_split in Hin as (pre & post & ->).
  exists pre, x, post. split_and!; [done..| |].
  - rewrite fmap_app, fmap_cons in Hnd.
    apply NoDup_app in Hnd as (_ & Hdisj & _).
    intros Hin. apply (Hdisj _ Hin). by left.
  - rewrite fmap_app, fmap_cons in Hnd.
    apply NoDup_app in Hnd as (_ & _ & [Hx _]%NoDup_cons). done.
Qed.

Lemma filter_id_nil (tabId : string) l :
  length (filter (λ x, Tab.id x = tabId) l) = 0 → tabId ∉ Tab.id <$> l.
Proof.
  induction l as [|x l IH]; [intros _; apply not_elem_of_nil|].
  rewrite filter_cons. case_decide; [done|]. intros Hl.
  rewrite fmap_cons, not_elem_of_cons. split; [done|by apply IH].
Qed.

(** A list splits around the only tab of a given id. *)
Lemma split_at_only (tabId : string) l :
  only_tab tabId l →
  ∃ pre x post, l = pre ++ (x :: post) ∧ Tab.id x = tabId
                ∧ (tabId ∉ Tab.id <$> pre) ∧ (tabId ∉ Tab.id <$> post).
Proof.
  unfold only_tab. induction l as [|x l IH]; [done|].
  rewrite filter_cons. case_decide as Hx; simpl.
  - intros [= Hl]. exists [], x, l.
    split_and!; [done..|apply not_elem_of_nil|by apply filter_id_nil].
  - intros (pre & y & post & -> & Hy & Hpre & Hpost)%IH.
    exists (x :: pre), y, post. split_and!; [done..| |done].
    rewrite fmap_cons, not_elem_of_cons. by split.
Qed.

Lemma NoDup_id_of_its_own (hostId : string) l :
  NoDup (Tab.id <$> l) → id_of_its_own hostId l.
Proof.
  intros Hnd i j x y Hi Hj _ Heq.
  eapply (NoDup_lookup _ _ _ (Tab.id x) Hnd).
  - rewrite list_lookup_fmap, Hj. simpl. by rewrite Heq.
  - by rewrite list_lookup_fmap, Hi.
Qed.

Lemma snoc_case {A} (l : list A) : l = [] ∨ ∃ init z, l = init ++ [z].
Proof. induction l using rev_ind; [by left|right; eauto]. Qed.

Lemma alter_last {A} (f : A → A) (init : list A) (z : A) :
  alter f (length (init ++ [z]) - 1) (init ++ [z]) = init ++ [f z].
Proof.
  rewrite length_app. simpl.
  replace (length init + 1 - 1) with (length init + 0) by lia.
  by rewrite alter_app_r.
Qed.

Lemma tabs_handleCloseTab_absent tabId st :
  tabId ∉ Tab.id <$> App.tabs st →
  App.tabs (App.handleCloseTab tabId st) = App.tabs st.
Proof.
  intros Hl. unfold App.handleCloseTab. simpl.
  rewrite find_id_absent, filter_id_absent by done.
  by rewrite andb_false_r.
Qed.

(** The tabs after closing the only tab [x] that carries [tabId]. *)
Lemma tabs_handleCloseTab_split tabId st pre x post :
  App.tabs st = pre ++ (x :: post) → Tab.id x = tabId →
  tabId ∉ Tab.id <$> pre → tabId ∉ Tab.id <$> post →
  App.tabs (App.handleCloseTab tabId st) =
    if bool_decide (0 < length (pre ++ post)) && Tab.isActive x
    then alter (Tab.set_isActive true) (length (pre ++ post) - 1) (pre ++ post)
    else pre ++ post.
Proof.
  intros Htabs Hx Hpre Hpost. unfold App.handleCloseTab. simpl.
  rewrite Htabs, filter_app, filter_cons_False by (intros H; by apply H).
  rewrite !filter_id_absent by done.
  rewrite list_find_app_r by (by apply find_id_absent).
  simpl. by rewrite decide_True.
Qed.
End handlers.

(** * connect *)

Section connect.
Import Spec.

Lemma hosts_handleConnect now hostId st :
  App.hosts (App.handleConnect now hostId st) =
    (λ h, if bool_decide (Host.id h = Some hostId)
          then Host.set_status (Some connected) h else h) <$> App.hosts st.
Proof. reflexivity. Qed.

Lemma tabs_handleConnect_new now hostId st :
  hostId ∉ Tab.hostId <$> App.tabs st →
  App.tabs (App.handleConnect now hostId st) =
    (Tab.set_isActive false <$> App.tabs st)
      ++ [Tab.mk ("t" +:+ pretty now) hostId true].
Proof.
  intros Hl. unfold App.handleConnect. simpl.
  by rewrite find_hostId_absent.
Qed.

Lemma tabs_handleConnect_existing now hostId st :
  hostId ∈ Tab.hostId <$> App.tabs st →
  ∃ i x, App.tabs st !! i = Some x ∧ Tab.hostId x = hostId ∧
    App.tabs (App.handleConnect now hostId st) =
      (λ y, Tab.set_isActive (bool_decide (Tab.id y = Tab.id x)) y)
        <$> App.tabs st.
Proof.
  intros (i & x & Hfind & Hi & Hx)%find_hostId_present.
  exists i, x. split_and!; [done..|].
  unfold App.handleConnect. simpl. by rewrite Hfind.
Qed.

(** The hosts after [connect]: those with the id are marked connected,
    the others stay. *)
Lemma hosts_handleConnect_lookup now hostId st i h :
  App.hosts st !! i = Some h →
  (Host.id h = Some hostId →
     App.hosts (App.handleConnect now hostId st) !! i
       = Some (Host.set_status (Some connected) h))
  ∧ (Host.id h ≠ Some hostId →
     App.hosts (App.handleConnect now hostId st) !! i = Some h).
Proof.
  intros Hi. rewrite hosts_handleConnect, list_lookup_fmap, Hi. simpl.
  split; intros Hid.
  - by rewrite bool_decide_eq_true_2.
  - by rewrite bool_decide_eq_false_2.
Qed.

(** The tab that [connect] finds is the first one with [hostId]. *)
Lemma tabs_handleConnect_first now hostId st :
  hostId ∈ Tab.hostId <$> App.tabs st →
  ∃ i x, App.tabs st !! i = Some x ∧ Tab.hostId x = hostId ∧
    (∀ j y, App.tabs st !! j = Some y → (j < i)%nat → Tab.hostId y ≠ hostId) ∧
    App.tabs (App.handleConnect now hostId st) =
      (λ y, Tab.set_isActive (bool_decide (Tab.id y = Tab.id x)) y)
        <$> App.tabs st.
Proof.
  intros (i & x & Hfind & Hi & Hx)%find_hostId_present.
  exists i, x. split_and!; [done..| |].
  - apply list_find_Some in Hfind as (_ & _ & Hfirst). done.
  - unfold App.handleConnect. simpl. by rewrite Hfind.
Qed.

(** C2 (amended). If a tab already has [hostId], [connect(hostId)] keeps
    the length of the list and makes active exactly the tabs that carry
    the id of the first tab with [hostId], all others inactive: that tab
    is the only active one whenever no other tab shares its id.  If no
    tab has [hostId], it deactivates every tab and appends one new active
    tab with [hostId].  In both cases every host whose id is [hostId]
    gets status [connected] and every other host is unchanged. *)
Theorem C2_connect now hostId st :
  let st' := App.handleConnect now hostId st in
  (hostId ∈ Tab.hostId <$> App.tabs st →
     length (App.tabs st') = length (App.tabs st) ∧
     ∃ i x, App.tabs st !! i = Some x ∧ Tab.hostId x = hostId ∧
       (∀ j y, App.tabs st !! j = Some y → (j < i)%nat → Tab.hostId y ≠ hostId) ∧
       (∀ j y, App.tabs st !! j = Some y →
          App.tabs st' !! j
            = Some (Tab.set_isActive (bool_decide (Tab.id y = Tab.id x)) y)) ∧
       ((∀ j y, App.tabs st !! j = Some y → Tab.id y = Tab.id x → j = i) →
          ∀ j y, App.tabs st !! j = Some y →
            App.tabs st' !! j = Some (Tab.set_isActive (bool_decide (j = i)) y)))
  ∧ (hostId ∉ Tab.hostId <$> App.tabs st →
     ∃ newTab, Tab.hostId newTab = hostId ∧ Tab.isActive newTab = true ∧
       App.tabs st' = (Tab.set_isActive false <$> App.tabs st) ++ [newTab])
  ∧ length (App.hosts st') = length (App.hosts st)
  ∧ (∀ i h, App.hosts st !! i = Some h →
      (Host.id h = Some hostId →
         App.hosts st' !! i = Some (Host.set_status (Some connected) h))
      ∧ (Host.id h ≠ Some hostId → App.hosts st' !! i = Some h))
  ∧ (id_of_its_own hostId (App.tabs st) → connect_claim now hostId st).
Proof.
  cbv zeta.
  assert (∀ i x,
    App.tabs st !! i = Some x →
    App.tabs (App.handleConnect now hostId st) =
      (λ y, Tab.set_isActive (bool_decide (Tab.id y = Tab.id x)) y)
        <$> App.tabs st →
    (∀ j y, App.tabs st !! j = Some y → Tab.id y = Tab.id x → j = i) →
    ∀ j y, App.tabs st !! j = Some y →
      App.tabs (App.handleConnect now hostId st) !! j
        = Some (Tab.set_isActive (bool_decide (j = i)) y)) as Hsole.
  { intros i x Hi Htabs Hown j y Hj.
    rewrite Htabs, list_lookup_fmap, Hj. simpl. do 2 f_equal.
    apply bool_decide_ext. split.
    - intros Heq. by apply (Hown j y).
    - intros ->. congruence. }
  assert (hostId ∉ Tab.hostId <$> App.tabs st →
    ∃ newTab, Tab.hostId newTab = hostId ∧ Tab.isActive newTab = true ∧
      App.tabs (App.handleConnect now hostId st)
        = (Tab.set_isActive false <$> App.tabs st) ++ [newTab]) as Hnew.
  { intros Hnin. eexists. split_and!; [| |by apply tabs_handleConnect_new]; done. }
  assert (length (App.hosts (App.handleConnect now hostId st))
          = length (App.hosts st)) as Hlen.
  { by rewrite hosts_handleConnect, length_fmap. }
  split_and!.
  - intros Hin.
    destruct (tabs_handleConnect_first now _ _ Hin)
      as (i & x & Hi & Hx & Hfirst & Htabs).
    split; [by rewrite Htabs, length_fmap|].
    exists i, x. split_and!; [done..| |].
    + intros j y Hj. by rewrite Htabs, list_lookup_fmap, Hj.
    + by apply (Hsole i x).
  - exact Hnew.
  - exact Hlen.
  - intros i h Hi. by apply hosts_handleConnect_lookup.
  - intros Hown. unfold connect_claim. split_and!.
    + intros Hin.
      destruct (tabs_handleConnect_first now _ _ Hin)
        as (i & x & Hi & Hx & _ & Htabs).
      split; [by rewrite Htabs, length_fmap|].
      exists i, x. split_and!; [done..|].
      apply (Hsole i x); [done..|].
      intros j y Hj Heq. by apply (Hown i j x y).
    + exact Hnew.
    + exact Hlen.
    + intros i h Hi. by apply hosts_handleConnect_lookup.
Qed.

(** C10. [connect] does not check that [hostId] names a host: when no
    host and no tab has [hostId], it still deactivates every tab and
    appends a new active tab with that [hostId], and the host list stays
    as it was. *)
Theorem C10_connect_unknown_host now hostId st :
  (∀ h, h ∈ App.hosts st → Host.id h ≠ Some hostId) →
  hostId ∉ Tab.hostId <$> App.tabs st →
  App.tabs (App.handleConnect now hostId st) =
    (Tab.set_isActive false <$> App.tabs st)
      ++ [Tab.mk ("t" +:+ pretty now) hostId true]
  ∧ App.hosts (App.handleConnect now hostId st) = App.hosts st.
Proof.
  intros Hhosts Htabs. split; [by apply tabs_handleConnect_new|].
  rewrite hosts_handleConnect. rewrite <-(list_fmap_id (App.hosts st)) at 2.
  apply list_fmap_ext. intros i h Hi. simpl.
  rewrite bool_decide_eq_false_2; [done|].
  apply Hhosts. by eapply list_elem_of_lookup_2.
Qed.
End connect.

(** * closeTab *)

Section closeTab.
Import Spec.

(** C3 (amended). For a [tabId] that is the id of exactly one tab of the
    list, [closeTab(tabId)] removes exactly that tab and keeps the order
    of the others; when the closed tab was active and tabs remain, the
    last remaining tab becomes active and no other flag changes; when it
    was not active, every remaining tab keeps its flag; when no tab
    remains, none is active. *)
Theorem C3_closeTab tabId st :
  only_tab tabId (App.tabs st) → closeTab_claim tabId st.
Proof.
  intros Honly.
  destruct (split_at_only _ _ Honly) as (pre & x & post & Htabs & Hx & Hpre & Hpost).
  exists pre, x, post.
  pose proof (tabs_handleCloseTab_split _ _ _ _ _ Htabs Hx Hpre Hpost) as Hclose.
  split_and!; [done..| | | |].
  - rewrite Hclose. case_match; [|done].
    rewrite (list_fmap_alter slot _ id) by (apply Forall_forall; by intros []).
    by apply list_alter_id.
  - intros Hact init z Hrest. rewrite Hclose, Hact, Hrest, andb_true_r.
    rewrite bool_decide_eq_true_2 by (rewrite length_app; simpl; lia).
    apply alter_last.
  - intros Hact. by rewrite Hclose, Hact, andb_false_r.
  - intros Hrest y. rewrite Hclose, Hrest. simpl. by intros ?%elem_of_nil.
Qed.
End closeTab.

(** * The single-active-tab invariant *)

Section invariant.
Import Spec.

Lemma tabs_ok_nil : tabs_ok [].
Proof. split; [constructor | by left]. Qed.

Lemma tabs_ok_select tabId l :
  tabs_ok l → tabId ∈ Tab.id <$> l →
  tabs_ok ((λ x, Tab.set_isActive (bool_decide (Tab.id x = tabId)) x) <$> l).
Proof.
  intros [Hnd _] Hin. split.
  - by rewrite id_set_isActive.
  - right. by apply activeCount_select_present.
Qed.

Lemma tabs_ok_handleConnect now hostId st :
  tabs_ok (App.tabs st) → admissible_call (App.connect now hostId) st →
  tabs_ok (App.tabs (App.handleConnect now hostId st)).
Proof.
  intros Hok Hfresh. destruct (decide (hostId ∈ Tab.hostId <$> App.tabs st)) as [Hin|Hnin].
  - destruct (tabs_handleConnect_existing now _ _ Hin) as (i & x & Hi & _ & ->).
    apply tabs_ok_select; [done|].
    apply list_elem_of_fmap. exists x. split; [done|].
    by eapply list_elem_of_lookup_2.
  - rewrite tabs_handleConnect_new by done. destruct Hok as [Hnd _]. split.
    + rewrite fmap_app. simpl.
      rewrite <-list_fmap_compose.
      rewrite (list_fmap_ext _ Tab.id) by done.
      apply NoDup_app. split_and!; [done| |apply NoDup_singleton].
      intros k Hk ->%list_elem_of_singleton. by apply (Hfresh Hnin).
    + right. rewrite activeCount_app, activeCount_deactivate. done.
Qed.

Lemma tabs_ok_handleCloseTab tabId st :
  tabs_ok (App.tabs st) → tabs_ok (App.tabs (App.handleCloseTab tabId st)).
Proof.
  intros Hok. destruct (decide (tabId ∈ Tab.id <$> App.tabs st)) as [Hin|Hnin];
    [|by rewrite tabs_handleCloseTab_absent].
  destruct Hok as [Hnd Hone].
  destruct (split_at_id _ _ Hnd Hin) as (pre & x & post & Htabs & Hx & Hpre & Hpost).
  rewrite (tabs_handleCloseTab_split _ _ _ _ _ Htabs Hx Hpre Hpost).
  rewrite Htabs in Hnd, Hone.
  assert (NoDup (Tab.id <$> pre ++ post)) as Hnd'.
  { rewrite fmap_app, fmap_cons in Hnd. rewrite fmap_app.
    apply NoDup_app in Hnd as (? & Hdisj & [_ ?]%NoDup_cons).
    apply NoDup_app. split_and!; [done| |done].
    intros k Hk Hk'. apply (Hdisj k Hk). by right. }
  destruct Hone as [Hnil|Hone]; [by destruct pre|].
  assert (activeCount (pre ++ post) + (if Tab.isActive x then 1 else 0) = 1)
    as Hrem.
  { rewrite activeCount_app, activeCount_cons in Hone.
    rewrite activeCount_app. lia. }
  clear Hone.
  destruct (snoc_case (pre ++ post)) as [Hrest|(init & z & Hrest)].
  - rewrite Hrest. simpl. apply tabs_ok_nil.
  - rewrite bool_decide_eq_true_2 by (rewrite Hrest, length_app; simpl; lia).
    simpl. destruct (Tab.isActive x) eqn:Hact.
    + rewrite Hrest, alter_last. rewrite Hrest in Hnd'. split.
      * by rewrite fmap_app in *.
      * right. rewrite Hrest, activeCount_app in Hrem.
        rewrite activeCount_app, !activeCount_cons. simpl.
        unfold activeCount at 2. rewrite filter_nil. simpl. lia.
    + split; [done|]. right. lia.
Qed.

Lemma tabs_ok_call c st :
  tabs_ok (App.tabs st) → admissible_call c st →
  tabs_ok (App.tabs (App.call c st)).
Proof.
  destruct c as [now hostId|tabId|tabId]; simpl.
  - apply tabs_ok_handleConnect.
  - intros ? _. by apply tabs_ok_handleCloseTab.
  - intros Hok Hin. destruct (App.tabs st) as [|x l] eqn:Htabs.
    + apply tabs_ok_nil.
    + rewrite <-Htabs in *. apply tabs_ok_select; [done|].
      apply Hin. by rewrite Htabs.
Qed.

Lemma tabs_ok_trace calls : ∀ st,
  tabs_ok (App.tabs st) → admissible calls st →
  Forall (λ st', tabs_ok (App.tabs st')) (App.trace calls st).
Proof.
  induction calls as [|c calls IH]; intros st Hok Hadm; simpl; [constructor|].
  destruct Hadm as [Hc Hadm].
  pose proof (tabs_ok_call c st Hok Hc). constructor; [done|by apply IH].
Qed.

(** C1 (amended). From a state with no tab, after each call of a
    sequence of [connect], [closeTab] and [selectTab] calls in which every
    [selectTab] made while tabs are open names one of them and every
    [connect] that opens a tab reads a time whose id no open tab has,
    either the tab list is empty or exactly one tab is active. *)
Theorem C1_single_active calls st :
  App.tabs st = [] → admissible calls st →
  Forall (λ st', singleActive (App.tabs st')) (App.trace calls st).
Proof.
  intros Hnil Hadm. eapply Forall_impl.
  - apply tabs_ok_trace; [|done]. rewrite Hnil. apply tabs_ok_nil.
  - by intros st' [_ ?].
Qed.
End invariant.

(** * Saving a host *)

Section saveHost.


Lemma hosts_handleSaveHost_edit now hostData st e :
  App.editingHost st = Some e →
  App.hosts (App.handleSaveHost now hostData st) =
    (λ h, if bool_decide (Host.id h = Host.id hostData) then hostData else h)
      <$> App.hosts st.
Proof. intros He. unfold App.handleSaveHost. by rewrite He. Qed.

Lemma hosts_handleSaveHost_create now hostData st :
  App.editingHost st = None →
  App.hosts (App.handleSaveHost now hostData st) =
    App.hosts st ++
      [Host.set_status (Some idle)
         (Host.set_id (Some ("h" +:+ pretty now)) hostData)].
Proof. intros He. unfold App.handleSaveHost. by rewrite He. Qed.


End saveHost.

Section saveHost_runs.

End saveHost_runs.

(** * Runs of the tab handlers *)

Section runs.
Import Spec.

(** The scenarios the specification lists. *)
Example connect_new_host :
  App.tabs (App.handleConnect 5 "h2" App.initial)
  = [Tab.mk "t1" "h1" false; Tab.mk "t5" "h2" true]
  ∧ Host.status <$> App.hosts (App.handleConnect 5 "h2" App.initial) !! 1
    = Some (Some connected).
Proof. split; reflexivity. Qed.

Example connect_same_host :
  App.tabs (App.handleConnect 5 "h1" App.initial) = [Tab.mk "t1" "h1" true].
Proof. reflexivity. Qed.

Example close_promotes_last :
  App.tabs (App.handleCloseTab "t2"
    (App.setTabs [Tab.mk "t1" "h1" false; Tab.mk "t2" "h2" true;
                  Tab.mk "t3" "h3" false] App.initial))
  = [Tab.mk "t1" "h1" false; Tab.mk "t3" "h3" true].
Proof. reflexivity. Qed.

Example close_last_tab :
  App.tabs (App.handleCloseTab "t1" App.initial) = [].
Proof. reflexivity. Qed.

Example end_to_end :
  let formData := HostEditor.handleChange HostEditor.hostname "10.0.3.5"
                    (HostEditor.handleChange HostEditor.name "edge-01"
                       (HostEditor.initialFormData None)) in
  let st := App.handleConnect 8 "h7"
              (App.submitEditor 7 formData (App.handleNewHost App.initial)) in
  length (App.hosts st) = 6
  ∧ App.tabs st = [Tab.mk "t1" "h1" false; Tab.mk "t8" "h7" true]
  ∧ Host.status <$> App.hosts st !! 5 = Some (Some connected).
Proof. split_and!; reflexivity. Qed.

(** Two [connect] calls that read the same time open two tabs with one
    id. *)
Example collision_tabs :
  App.tabs (App.handleConnect 5 "h2" (App.handleConnect 5 "h1" App.noTabs))
  = [Tab.mk "t5" "h1" false; Tab.mk "t5" "h2" true].
Proof. reflexivity. Qed.

(** C1, counterexample: after [connect("h1")] from no tab, [selectTab]
    with an id that no tab has leaves one tab, and it is not active. *)
Lemma C1_counterexample :
  ¬ singleActive_after_each_call [App.connect 5 "h1"; App.selectTab "t0"].
Proof.
  intros H. specialize (H App.noTabs eq_refl).
  apply Forall_cons in H as [_ H]. apply Forall_cons in H as [H _].
  destruct H as [H|H]; vm_compute in H; discriminate.
Qed.

Lemma C1_witness :
  let calls := [App.connect 5 "h1"; App.connect 6 "h2"; App.selectTab "t5";
                App.closeTab "t6"; App.closeTab "t5"] in
  App.tabs App.noTabs = [] ∧ admissible calls App.noTabs
  ∧ Forall (λ st', singleActive (App.tabs st')) (App.trace calls App.noTabs).
Proof.
  assert (admissible
    [App.connect 5 "h1"; App.connect 6 "h2"; App.selectTab "t5";
     App.closeTab "t6"; App.closeTab "t5"] App.noTabs) as Hadm.
  { simpl. split_and!; try done; try (intros _); by_evaluation. }
  split_and!; [reflexivity|exact Hadm|].
  exact (C1_single_active _ App.noTabs eq_refl Hadm).
Defined.

(** Timestamps that collide break the invariant as well: both tabs
    carry the id that [selectTab] activates. *)
Lemma collision_breaks_singleActive :
  ¬ singleActive_after_each_call
      [App.connect 5 "h1"; App.connect 5 "h2"; App.selectTab "t5"].
Proof.
  intros H. specialize (H App.noTabs eq_refl).
  do 2 apply Forall_cons in H as [_ H]. apply Forall_cons in H as [H _].
  destruct H as [H|H]; vm_compute in H; discriminate.
Qed.

(** C2, counterexample: with two tabs of one id, [connect] to the host of
    the first activates both. *)
Lemma C2_counterexample :
  ¬ connect_claim 6 "h1"
      (App.handleConnect 5 "h2" (App.handleConnect 5 "h1" App.noTabs)).
Proof.
  intros (Hexisting & _).
  destruct Hexisting as (_ & i & x & _ & _ & Hflags); [by_evaluation|].
  pose proof (Hflags 0 _ eq_refl) as H0.
  pose proof (Hflags 1 _ eq_refl) as H1.
  vm_compute in H0, H1.
  destruct i as [|[|i]]; simpl in *; discriminate.
Qed.

(** C2, witnesses.  In the state of the counterexample, where both tabs
    carry the id [t5], [connect("h1")] activates both; once the tab of
    [h1] has an id of its own, [connect] makes it the only active one. *)
Lemma C2_witness :
  let st := App.handleConnect 5 "h2" (App.handleConnect 5 "h1" App.noTabs) in
  let st1 := App.handleConnect 5 "h2" App.initial in
  ("h1" ∈ Tab.hostId <$> App.tabs st
   ∧ App.tabs (App.handleConnect 6 "h1" st)
     = [Tab.mk "t5" "h1" true; Tab.mk "t5" "h2" true])
  ∧ id_of_its_own "h1" (App.tabs st1) ∧ connect_claim 6 "h1" st1.
Proof.
  split.
  - assert ("h1" ∈ Tab.hostId <$> App.tabs
              (App.handleConnect 5 "h2" (App.handleConnect 5 "h1" App.noTabs)))
      as Hin by by_evaluation.
    split; [exact Hin|].
    destruct (proj1 (C2_connect 6 "h1" _) Hin) as (_ & _ & _ & _ & _ & _ & _).
    reflexivity.
  - assert (id_of_its_own "h1" (App.tabs (App.handleConnect 5 "h2" App.initial)))
      as Hown.
    { apply NoDup_id_of_its_own. by_evaluation. }
    split; [exact Hown|].
    exact (proj2 (proj2 (proj2 (proj2 (C2_connect 6 "h1" _)))) Hown).
Defined.

(** C3, counterexample: with two tabs of one id, [closeTab] of that id
    removes both. *)
Lemma C3_counterexample :
  let st := App.handleConnect 5 "h2" (App.handleConnect 5 "h1" App.noTabs) in
  "t5" ∈ Tab.id <$> App.tabs st ∧ ¬ closeTab_claim "t5" st.
Proof.
  split; [by_evaluation|].
  intros (pre & x & post & Htabs & _ & Hslots & _).
  apply (f_equal length) in Htabs, Hslots.
  rewrite length_app in Htabs. rewrite !length_fmap, length_app in Hslots.
  change (2 = length pre + S (length post)) in Htabs.
  change (0 = length pre + length post) in Hslots. lia.
Qed.

Lemma C3_witness :
  let st := App.handleConnect 5 "h2" App.initial in
  only_tab "t5" (App.tabs st) ∧ closeTab_claim "t5" st.
Proof.
  assert (only_tab "t5" (App.tabs (App.handleConnect 5 "h2" App.initial)))
    as Honly by reflexivity.
  split; [exact Honly|]. exact (C3_closeTab _ _ Honly).
Defined.

Lemma C10_witness :
  (∀ h, h ∈ App.hosts App.initial → Host.id h ≠ Some "h9")
  ∧ ("h9" ∉ Tab.hostId <$> App.tabs App.initial)
  ∧ App.tabs (App.handleConnect 5 "h9" App.initial) =
      [Tab.mk "t1" "h1" false; Tab.mk "t5" "h9" true]
  ∧ App.hosts (App.handleConnect 5 "h9" App.initial) = App.hosts App.initial.
Proof.
  assert (∀ h, h ∈ App.hosts App.initial → Host.id h ≠ Some "h9") as Hhosts.
  { apply Forall_forall. by_evaluation. }
  assert ("h9" ∉ Tab.hostId <$> App.tabs App.initial) as Htabs by by_evaluation.
  split_and!; [exact Hhosts|exact Htabs|..];
    apply (C10_connect_unknown_host 5 "h9" App.initial Hhosts Htabs).
Defined.
End runs.

(** * Further properties of the tab handlers *)

Section tab_handlers.
Import Spec.
Implicit Types (st : App.t) (l : list Tab.t) (x : Tab.t).

Lemma hostId_set_isActive (f : Tab.t → bool) l :
  Tab.hostId <$> ((λ x, Tab.set_isActive (f x) x) <$> l) = Tab.hostId <$> l.
Proof. rewrite <-list_fmap_compose. by apply list_fmap_ext. Qed.

Lemma slot_set_isActive (f : Tab.t → bool) l :
  slot <$> ((λ x, Tab.set_isActive (f x) x) <$> l) = slot <$> l.
Proof. rewrite <-list_fmap_compose. by apply list_fmap_ext. Qed.

(** The tabs [closeTab] leaves are those with another id, apart from
    their flags. *)
Lemma slot_handleCloseTab tabId st :
  slot <$> App.tabs (App.handleCloseTab tabId st)
  = slot <$> filter (λ x, Tab.id x ≠ tabId) (App.tabs st).
Proof.
  unfold App.handleCloseTab. simpl. case_match; [|done].
  rewrite (list_fmap_alter slot _ id) by (apply Forall_forall; by intros []).
  by rewrite list_alter_id.
Qed.

Lemma slot_filter_sublist (P : Tab.t → Prop) `{!∀ x, Decision (P x)} l :
  slot <$> filter P l `sublist_of` slot <$> l.
Proof. apply fmap_sublist, sublist_filter. Qed.

Lemma tabs_handleSelectTab tabId st :
  App.tabs (App.handleSelectTab tabId st)
  = (λ x, Tab.set_isActive (bool_decide (Tab.id x = tabId)) x) <$> App.tabs st.
Proof. reflexivity. Qed.

(** The host ids of the tabs after each tab handler. *)
Lemma hostIds_handleConnect now hostId st :
  Tab.hostId <$> App.tabs (App.handleConnect now hostId st)
  = if bool_decide (hostId ∈ Tab.hostId <$> App.tabs st)
    then Tab.hostId <$> App.tabs st
    else (Tab.hostId <$> App.tabs st) ++ [hostId].
Proof.
  case_bool_decide as Hin.
  - destruct (tabs_handleConnect_existing now _ _ Hin) as (i & x & _ & _ & ->).
    apply hostId_set_isActive.
  - rewrite tabs_handleConnect_new by done. rewrite fmap_app. simpl.
    by rewrite (hostId_set_isActive (λ _, false)).
Qed.

Lemma hostIds_handleCloseTab tabId st :
  Tab.hostId <$> App.tabs (App.handleCloseTab tabId st)
    `sublist_of` Tab.hostId <$> App.tabs st.
Proof.
  assert (∀ l : list Tab.t, Tab.hostId <$> l = snd <$> (slot <$> l)) as Hsnd.
  { intros l. rewrite <-list_fmap_compose. by apply list_fmap_ext. }
  rewrite !Hsnd, slot_handleCloseTab. apply fmap_sublist, slot_filter_sublist.
Qed.

(** X1. At most one tab per host: a sequence of [connect], [closeTab]
    and [selectTab] calls, whatever times and ids it carries, keeps the
    host ids of the tabs pairwise distinct after each call. *)
Theorem one_tab_per_host calls : ∀ st,
  NoDup (Tab.hostId <$> App.tabs st) →
  Forall (λ st', NoDup (Tab.hostId <$> App.tabs st')) (App.trace calls st).
Proof.
  induction calls as [|c calls IH]; intros st Hnd; simpl; [constructor|].
  assert (NoDup (Tab.hostId <$> App.tabs (App.call c st))) as Hnd'.
  { destruct c as [now hostId|tabId|tabId]; unfold App.call.
    - rewrite hostIds_handleConnect. case_bool_decide as Hin; [done|].
      apply NoDup_app. split_and!; [done| |apply NoDup_singleton].
      by intros k Hk ->%list_elem_of_singleton.
    - eapply sublist_NoDup; [done|apply hostIds_handleCloseTab].
    - by rewrite tabs_handleSelectTab, hostId_set_isActive. }
  constructor; [done|by apply IH].
Qed.

Lemma one_tab_per_host_witness :
  let calls := [App.connect 5 "h2"; App.connect 5 "h3"; App.connect 6 "h2";
                App.selectTab "t9"; App.closeTab "t5"] in
  NoDup (Tab.hostId <$> App.tabs App.initial)
  ∧ Forall (λ st', NoDup (Tab.hostId <$> App.tabs st')) (App.trace calls App.initial).
Proof.
  assert (NoDup (Tab.hostId <$> App.tabs App.initial)) as Hnd by by_evaluation.
  split; [exact Hnd|]. exact (one_tab_per_host _ App.initial Hnd).
Defined.

(** X2. Selecting replaces the earlier selection: [selectTab(b)] after
    [selectTab(a)] gives the state [selectTab(b)] alone gives; the tabs
    keep their ids, hosts and order. *)
Theorem selectTab_overrides a b st :
  App.handleSelectTab b (App.handleSelectTab a st) = App.handleSelectTab b st
  ∧ slot <$> App.tabs (App.handleSelectTab b st) = slot <$> App.tabs st.
Proof.
  split.
  - unfold App.handleSelectTab, App.setTabs. simpl. f_equal.
    rewrite <-list_fmap_compose. by apply list_fmap_ext.
  - by rewrite tabs_handleSelectTab, slot_set_isActive.
Qed.

Lemma handleCloseTab_absent tabId st :
  tabId ∉ Tab.id <$> App.tabs st → App.handleCloseTab tabId st = st.
Proof.
  intros Hnin. pose proof (tabs_handleCloseTab_absent _ _ Hnin) as Htabs.
  unfold App.handleCloseTab, App.setTabs in *. simpl in Htabs.
  rewrite Htabs. by destruct st.
Qed.

(** X3. [closeTab] with an id that no tab has changes nothing: not the
    tabs, and no other part of the state. *)
Theorem closeTab_unknown tabId st :
  tabId ∉ Tab.id <$> App.tabs st → App.handleCloseTab tabId st = st.
Proof. apply handleCloseTab_absent. Qed.

Lemma closeTab_unknown_witness :
  ("t9" ∉ Tab.id <$> App.tabs App.initial)
  ∧ App.handleCloseTab "t9" App.initial = App.initial.
Proof.
  assert ("t9" ∉ Tab.id <$> App.tabs App.initial) as Hnin by by_evaluation.
  split; [exact Hnin|]. exact (closeTab_unknown _ _ Hnin).
Defined.

(** X4. After [closeTab(tabId)] no tab carries [tabId], also when several
    did; the tabs left are, in order and apart from their flags, tabs of
    before; closing the same id again changes nothing. *)
Theorem closeTab_removes tabId st :
  let st' := App.handleCloseTab tabId st in
  (tabId ∉ Tab.id <$> App.tabs st')
  ∧ slot <$> App.tabs st' `sublist_of` slot <$> App.tabs st
  ∧ App.handleCloseTab tabId st' = st'.
Proof.
  cbv zeta.
  assert (tabId ∉ Tab.id <$> App.tabs (App.handleCloseTab tabId st)) as Hgone.
  { assert (∀ l : list Tab.t, Tab.id <$> l = fst <$> (slot <$> l)) as Hfst.
    { intros l. rewrite <-list_fmap_compose. by apply list_fmap_ext. }
    rewrite Hfst, slot_handleCloseTab, <-Hfst.
    intros (x & Hx & [Hne _]%list_elem_of_filter)%list_elem_of_fmap. done. }
  split_and!; [done| |by apply handleCloseTab_absent].
  rewrite slot_handleCloseTab. apply slot_filter_sublist.
Qed.
End tab_handlers.

(** * Tab ids and the clock *)

Section clock.
Implicit Types (st : App.t).





End clock.

(** * Groups and hosts under the events of the root *)

Section root.
Implicit Types (st : App.t) (e : Root.Event).

Lemma groups_handleToggleGroup groupId st :
  App.groups (App.handleToggleGroup groupId st)
  = (λ g, if bool_decide (Group.id g = groupId)
          then Group.mk (Group.id g) (Group.name g) (negb (Group.isExpanded g))
          else g) <$> App.groups st.
Proof. reflexivity. Qed.

(** X6. Toggling a group twice restores the state, and toggling an id
    that no group has changes nothing. *)
Theorem toggleGroup_twice groupId st :
  App.handleToggleGroup groupId (App.handleToggleGroup groupId st) = st
  ∧ (groupId ∉ Group.id <$> App.groups st →
     App.handleToggleGroup groupId st = st).
Proof.
  split.
  - unfold App.handleToggleGroup, App.setGroups. simpl.
    rewrite <-list_fmap_compose.
    assert (∀ l : list Group.t,
      ((λ g, if bool_decide (Group.id g = groupId)
             then Group.mk (Group.id g) (Group.name g) (negb (Group.isExpanded g))
             else g)
       ∘ (λ g, if bool_decide (Group.id g = groupId)
               then Group.mk (Group.id g) (Group.name g) (negb (Group.isExpanded g))
               else g)) <$> l = l) as ->.
    { intros l. rewrite <-(list_fmap_id l) at 2. apply list_fmap_ext.
      intros i [gid gname gexp] _. simpl.
      destruct (decide (gid = groupId)) as [Hg|Hg].
      - rewrite (bool_decide_eq_true_2 _ Hg). simpl.
        rewrite (bool_decide_eq_true_2 _ Hg). by rewrite negb_involutive.
      - rewrite (bool_decide_eq_false_2 _ Hg).
        cbn. by rewrite (bool_decide_eq_false_2 _ Hg). }
    by destruct st.
  - intros Hnin. unfold App.handleToggleGroup, App.setGroups.
    assert ((λ g, if bool_decide (Group.id g = groupId)
                  then Group.mk (Group.id g) (Group.name g) (negb (Group.isExpanded g))
                  else g) <$> App.groups st = App.groups st) as ->.
    { rewrite <-(list_fmap_id (App.groups st)) at 2. apply list_fmap_ext.
      intros i g Hi. simpl. rewrite bool_decide_eq_false_2; [done|].
      intros Hg. apply Hnin, list_elem_of_fmap. exists g.
      split; [done|by eapply list_elem_of_lookup_2]. }
    by destruct st.
Qed.

Lemma run_cons e events st :
  Root.run (e :: events) st = Root.run events (Root.handle e st).
Proof. reflexivity. Qed.

Lemma group_ids_handle e st :
  Group.id <$> App.groups (Root.handle e st) = Group.id <$> App.groups st
  ∧ Group.name <$> App.groups (Root.handle e st) = Group.name <$> App.groups st.
Proof.
  destruct e; try done.
  - unfold Root.handle. rewrite groups_handleToggleGroup.
    rewrite <-!list_fmap_compose.
    split; apply list_fmap_ext; intros i g _; simpl; by case_bool_decide.
  - unfold Root.handle, App.handleSaveHost. by destruct (App.editingHost st).
Qed.

(** X7. No event of the root adds, removes, renames or reorders a group:
    after any sequence of events the groups have the ids and names they
    had, in the same order. *)
Theorem groups_fixed events : ∀ st,
  Group.id <$> App.groups (Root.run events st) = Group.id <$> App.groups st
  ∧ Group.name <$> App.groups (Root.run events st) = Group.name <$> App.groups st.
Proof.
  induction events as [|e events IH]; intros st; [done|].
  rewrite run_cons. destruct (IH (Root.handle e st)) as [-> ->].
  apply group_ids_handle.
Qed.

Lemma host_ids_handleConnect now hostId st :
  Host.id <$> App.hosts (App.handleConnect now hostId st)
  = Host.id <$> App.hosts st.
Proof.
  rewrite hosts_handleConnect, <-list_fmap_compose.
  apply list_fmap_ext. intros i h _. simpl. by case_bool_decide.
Qed.

Lemma host_ids_handleSaveHost now host st :
  Host.id <$> App.hosts (App.handleSaveHost now host st)
  = match App.editingHost st with
    | Some _ => Host.id <$> App.hosts st
    | None => (Host.id <$> App.hosts st) ++ [Some ("h" +:+ pretty now)]
    end.
Proof.
  destruct (App.editingHost st) as [e|] eqn:He.
  - rewrite (hosts_handleSaveHost_edit _ _ _ _ He), <-list_fmap_compose.
    apply list_fmap_ext. intros i h _. simpl. by case_bool_decide.
  - rewrite (hosts_handleSaveHost_create _ _ _ He). by rewrite fmap_app.
Qed.

Lemma host_ids_handle e st :
  Host.id <$> App.hosts st `prefix_of` Host.id <$> App.hosts (Root.handle e st).
Proof.
  destruct e; try done; unfold Root.handle.
  - by rewrite host_ids_handleConnect.
  - rewrite host_ids_handleSaveHost. destruct (App.editingHost st); [done|].
    by apply prefix_app_r.
Qed.

Lemma host_ids_created_by e st :
  Host.id <$> App.hosts (Root.handle e st)
  = (Host.id <$> App.hosts st) ++ HostLog.created_by e st.
Proof.
  destruct e; unfold Root.handle, HostLog.created_by;
    try (rewrite List.app_nil_r; try done).
  - apply host_ids_handleConnect.
  - rewrite host_ids_handleSaveHost.
    destruct (App.editingHost st); [by rewrite List.app_nil_r|done].
Qed.

(** X8. No event of the root removes a host or changes the id or the
    position of one, and only a save in create mode adds one: after any
    sequence of events the list of host ids is the list of before
    followed by the ids the create-mode saves of the sequence made, in
    their order; an event other than a save, and a save in edit mode,
    leaves the list of host ids as it was. *)
Theorem host_ids_grow events st :
  Host.id <$> App.hosts (Root.run events st)
  = (Host.id <$> App.hosts st) ++ HostLog.created events st
  ∧ Host.id <$> App.hosts st `prefix_of` Host.id <$> App.hosts (Root.run events st)
  ∧ ∀ e,
      match e, App.editingHost st with
      | Root.SaveHost now _, None =>
          Host.id <$> App.hosts (Root.handle e st)
          = (Host.id <$> App.hosts st) ++ [Some ("h" +:+ pretty now)]
      | _, _ => Host.id <$> App.hosts (Root.handle e st) = Host.id <$> App.hosts st
      end.
Proof.
  assert (∀ events st,
    Host.id <$> App.hosts (Root.run events st)
    = (Host.id <$> App.hosts st) ++ HostLog.created events st) as Hlog.
  { clear. induction events as [|e events IH]; intros st.
    - by rewrite List.app_nil_r.
    - rewrite run_cons, IH, host_ids_created_by. simpl.
      by rewrite <-List.app_assoc. }
  split_and!.
  - apply Hlog.
  - rewrite Hlog. by apply prefix_app_r.
  - intros e. pose proof (host_ids_created_by e st) as He.
    unfold HostLog.created_by in He.
    destruct e, (App.editingHost st);
      try (rewrite List.app_nil_r in He); exact He.
Qed.
End root.

(** * The tab strip and the active host *)

Section strip.
Implicit Types (st : App.t) (hosts : list Host.t) (tabs : list Tab.t).

Lemma filter_all {A} (P : A → Prop) `{!∀ x, Decision (P x)} (l : list A) :
  Forall P l → filter P l = l.
Proof.
  induction 1 as [|x l Hx _ IH]; [done|]. by rewrite filter_cons_True, IH.
Qed.

Lemma find_host_listed hosts (hostId : string) :
  Some hostId ∈ Host.id <$> hosts →
  ∃ i h, list_find (λ h, Host.id h = Some hostId) hosts = Some (i, h)
         ∧ Host.id h = Some hostId ∧ h ∈ hosts.
Proof.
  intros (h & Hid & Hin)%list_elem_of_fmap.
  destruct (list_find_elem_of (λ h, Host.id h = Some hostId) hosts h Hin)
    as [[i h'] Hfind]; [done|].
  exists i, h'. split; [done|].
  apply list_find_Some in Hfind as (Hi & ? & _).
  split; [done|by eapply list_elem_of_lookup_2].
Qed.

Lemma find_host_unlisted hosts (hostId : string) :
  Some hostId ∉ Host.id <$> hosts →
  list_find (λ h, Host.id h = Some hostId) hosts = None.
Proof.
  intros Hnin. apply list_find_None, Forall_forall. intros h Hin Hid.
  apply Hnin, list_elem_of_fmap. by exists h.
Qed.

Lemma entry_listed hosts x :
  Some (Tab.hostId x) ∈ Host.id <$> hosts →
  ∃ h, TabsView.entry hosts x = Some (x, h)
       ∧ Host.id h = Some (Tab.hostId x) ∧ h ∈ hosts.
Proof.
  intros (i & h & Hfind & Hid & Hin)%find_host_listed.
  exists h. unfold TabsView.entry. by rewrite Hfind.
Qed.

Lemma entry_unlisted hosts x :
  Some (Tab.hostId x) ∉ Host.id <$> hosts → TabsView.entry hosts x = None.
Proof.
  intros Hnin. unfold TabsView.entry. by rewrite find_host_unlisted.
Qed.

Lemma rendered_tabs tabs hosts :
  (TabsView.rendered tabs hosts).*1
  = filter (λ x, Some (Tab.hostId x) ∈ Host.id <$> hosts) tabs.
Proof.
  unfold TabsView.rendered.
  induction tabs as [|x tabs IH]; [done|].
  change (x :: tabs) with ([x] ++ tabs). rewrite omap_app, fmap_app, IH.
  rewrite filter_app. f_equal. simpl.
  destruct (decide (Some (Tab.hostId x) ∈ Host.id <$> hosts)) as [Hin|Hnin].
  - destruct (entry_listed _ _ Hin) as (h & -> & _).
    by rewrite filter_cons_True.
  - rewrite entry_unlisted by done. by rewrite filter_cons_False.
Qed.

(** X9. The tab strip shows exactly the tabs whose [hostId] is the id of a
    host of the list, in the order of the tab list, and skips the others
    without a trace; each shown tab is joined to a host of the list that
    carries its [hostId]. *)
Theorem TabsView_rendered tabs hosts :
  (TabsView.rendered tabs hosts).*1
  = filter (λ x, Some (Tab.hostId x) ∈ Host.id <$> hosts) tabs
  ∧ ∀ x h, (x, h) ∈ TabsView.rendered tabs hosts →
      Host.id h = Some (Tab.hostId x) ∧ h ∈ hosts ∧ x ∈ tabs.
Proof.
  split; [apply rendered_tabs|]. unfold TabsView.rendered.
  intros x h (y & Hy & Hentry)%list_elem_of_omap.
  unfold TabsView.entry in Hentry.
  destruct (list_find _ hosts) as [[i h']|] eqn:Hfind; [|done].
  injection Hentry as -> ->.
  apply list_find_Some in Hfind as (Hi & ? & _).
  split_and!; [done|by eapply list_elem_of_lookup_2|done].
Qed.

Lemma resolvable_handle e st :
  Root.resolvable st →
  match e with
  | Root.Connect _ hostId => Some hostId ∈ Host.id <$> App.hosts st
  | _ => True
  end →
  Root.resolvable (Root.handle e st).
Proof.
  intros Hres He x Hx.
  eapply elem_of_prefix; [|apply host_ids_handle].
  destruct e; try (by apply Hres); unfold Root.handle in Hx.
  - assert (Tab.hostId x ∈ Tab.hostId <$> App.tabs (App.handleConnect now hostId st))
      as Hin by (apply list_elem_of_fmap; by exists x).
    rewrite hostIds_handleConnect in Hin.
    assert (Tab.hostId x ∈ Tab.hostId <$> App.tabs st ∨ Tab.hostId x = hostId)
      as [(y & -> & Hy)%list_elem_of_fmap| ->]; [|by apply Hres|done].
    case_bool_decide; [by left|].
    apply elem_of_app in Hin as [?|?%list_elem_of_singleton]; [by left|by right].
  - assert (Tab.hostId x ∈ Tab.hostId <$> App.tabs st)
      as (y & -> & Hy)%list_elem_of_fmap; [|by apply Hres].
    eapply elem_of_sublist; [|apply (hostIds_handleCloseTab tabId)].
    apply list_elem_of_fmap. by exists x.
  - assert (Tab.hostId x ∈ Tab.hostId <$> App.tabs st)
      as (y & -> & Hy)%list_elem_of_fmap; [|by apply Hres].
    rewrite <-(hostId_set_isActive (λ x, bool_decide (Tab.id x = tabId))).
    apply list_elem_of_fmap. by exists x.
  - apply Hres. unfold App.handleSaveHost in Hx.
    by destruct (App.editingHost st).
Qed.

(** X10. When every tab refers to a listed host and every [connect] of a
    sequence of events names a host listed at that point (as the rows of
    the sidebar do), then after the sequence every tab still refers to a
    listed host, and the tab strip shows every tab. *)
Theorem strip_shows_every_tab events : ∀ st,
  Root.resolvable st → Root.connects_listed events st →
  Root.resolvable (Root.run events st)
  ∧ (TabsView.rendered (App.tabs (Root.run events st))
       (App.hosts (Root.run events st))).*1
    = App.tabs (Root.run events st).
Proof.
  induction events as [|e events IH]; intros st Hres Hev.
  - split; [done|]. simpl.
    rewrite rendered_tabs.
    apply filter_all. apply Forall_forall. intros x Hx. by apply Hres.
  - destruct Hev as [He Hev]. rewrite run_cons. apply IH; [|done].
    by apply resolvable_handle.
Qed.

Lemma strip_shows_every_tab_witness :
  let events := [Root.Connect 5 "h2"; Root.NewHost;
                 Root.SaveHost 6 (HostEditor.initialFormData None);
                 Root.Connect 7 "h6"; Root.CloseTab "t1"] in
  Root.resolvable App.initial ∧ Root.connects_listed events App.initial
  ∧ (TabsView.rendered (App.tabs (Root.run events App.initial))
       (App.hosts (Root.run events App.initial))).*1
    = [Tab.mk "t5" "h2" false; Tab.mk "t7" "h6" true].
Proof.
  assert (Root.resolvable App.initial) as Hres.
  { intros x Hx. revert x Hx. apply Forall_forall. by_evaluation. }
  assert (Root.connects_listed
    [Root.Connect 5 "h2"; Root.NewHost;
     Root.SaveHost 6 (HostEditor.initialFormData None);
     Root.Connect 7 "h6"; Root.CloseTab "t1"] App.initial) as Hev.
  { simpl. split_and!; try done; by_evaluation. }
  split_and!; [exact Hres|exact Hev|].
  exact (proj2 (strip_shows_every_tab _ App.initial Hres Hev)).
Defined.
End strip.

Section active_host.
Import Spec.
Implicit Types (st : App.t).

Lemma find_active_deactivated (l : list Tab.t) :
  list_find (λ x, Tab.isActive x) (Tab.set_isActive false <$> l) = None.
Proof.
  apply list_find_None, Forall_forall.
  intros x (y & -> & _)%list_elem_of_fmap. simpl. by intros [].
Qed.

Lemma activeTab_handleConnect_new now hostId st :
  hostId ∉ Tab.hostId <$> App.tabs st →
  Root.activeTab (App.handleConnect now hostId st)
  = Some (Tab.mk ("t" +:+ pretty now) hostId true).
Proof.
  intros Hnin. unfold Root.activeTab.
  rewrite tabs_handleConnect_new by done.
  rewrite list_find_app_r by apply find_active_deactivated. done.
Qed.

Lemma activeTab_handleConnect_existing now hostId st :
  hostId ∈ Tab.hostId <$> App.tabs st → id_of_its_own hostId (App.tabs st) →
  ∃ x, Root.activeTab (App.handleConnect now hostId st) = Some x
       ∧ Tab.hostId x = hostId.
Proof.
  intros Hin Hown.
  destruct (tabs_handleConnect_existing now _ _ Hin) as (i & x & Hi & Hx & Htabs).
  exists (Tab.set_isActive true x). split; [|done].
  unfold Root.activeTab. rewrite Htabs.
  assert (list_find (λ y, Tab.isActive y)
            ((λ y, Tab.set_isActive (bool_decide (Tab.id y = Tab.id x)) y)
               <$> App.tabs st) = Some (i, Tab.set_isActive true x)) as ->; [|done].
  apply list_find_Some. split_and!.
  - rewrite list_lookup_fmap, Hi. simpl. by rewrite bool_decide_eq_true_2.
  - done.
  - intros j y' Hj Hlt Hact. rewrite list_lookup_fmap in Hj.
    destruct (App.tabs st !! j) as [y|] eqn:Hy; [|done].
    injection Hj as <-. simpl in Hact. apply bool_decide_unpack in Hact.
    pose proof (Hown i j x y Hi Hy Hx Hact). lia.
Qed.

Lemma hosts_handleConnect_unlisted now hostId st :
  Some hostId ∉ Host.id <$> App.hosts st →
  App.hosts (App.handleConnect now hostId st) = App.hosts st.
Proof.
  intros Hnin. rewrite hosts_handleConnect.
  rewrite <-(list_fmap_id (App.hosts st)) at 2.
  apply list_fmap_ext. intros i h Hi. simpl.
  rewrite bool_decide_eq_false_2; [done|]. intros Hid.
  apply Hnin, list_elem_of_fmap. exists h.
  split; [done|by eapply list_elem_of_lookup_2].
Qed.

(** X11. After [connect(hostId)] for a listed host, when no other tab
    shares the id of a tab of that host: the active tab is a tab of that
    host, the active host carries [hostId] and has status [connected], and
    so the Homebar disables Connect and enables Disconnect, Reconnect and
    Edit. *)
Theorem connect_activates_host now hostId st :
  Some hostId ∈ Host.id <$> App.hosts st →
  id_of_its_own hostId (App.tabs st) →
  let st' := App.handleConnect now hostId st in
  ∃ x h, Root.activeTab st' = Some x ∧ Tab.hostId x = hostId
    ∧ Root.activeHost st' = Some h ∧ Host.id h = Some hostId
    ∧ Host.status h = Some connected
    ∧ Homebar.disabled (Root.activeHost st')
      = Homebar.mkDisabled true false false false.
Proof.
  intros Hlisted Hown st'. subst st'.
  assert (∃ x, Root.activeTab (App.handleConnect now hostId st) = Some x
               ∧ Tab.hostId x = hostId) as (x & Hactive & Hx).
  { destruct (decide (hostId ∈ Tab.hostId <$> App.tabs st)) as [Hin|Hnin].
    - by apply activeTab_handleConnect_existing.
    - eexists. split; [by apply activeTab_handleConnect_new|done]. }
  rewrite <-(host_ids_handleConnect now hostId) in Hlisted.
  apply find_host_listed in Hlisted as (i & h & Hfind & Hid & Hh).
  assert (Root.activeHost (App.handleConnect now hostId st) = Some h) as Hhost.
  { unfold Root.activeHost. rewrite Hactive, Hx, Hfind. done. }
  assert (Host.status h = Some connected) as Hstatus.
  { rewrite hosts_handleConnect in Hh.
    apply list_elem_of_fmap in Hh as (h0 & -> & _). revert Hid.
    case_bool_decide as Hid0; [done|]. intros Hid. by destruct Hid0. }
  exists x, h. split_and!; [done..|].
  rewrite Hhost. unfold Homebar.disabled, Homebar.is_connected.
  by rewrite bool_decide_eq_true_2.
Qed.

Lemma connect_activates_host_witness :
  Some "h2" ∈ Host.id <$> App.hosts App.initial
  ∧ id_of_its_own "h2" (App.tabs App.initial)
  ∧ Root.activeHost (App.handleConnect 5 "h2" App.initial)
    = Some (Host.mk (Some "h2") "db-prod-01" "10.0.1.20" "admin" 2222%Z
              (Some "g1") (Some connected) None None None).
Proof.
  assert (Some "h2" ∈ Host.id <$> App.hosts App.initial) as Hlisted
    by by_evaluation.
  assert (id_of_its_own "h2" (App.tabs App.initial)) as Hown.
  { apply NoDup_id_of_its_own. by_evaluation. }
  split_and!; [exact Hlisted|exact Hown|].
  destruct (connect_activates_host 5 "h2" App.initial Hlisted Hown)
    as (x & h & _ & _ & Hhost & _).
  rewrite Hhost. f_equal. vm_compute in Hhost. by injection Hhost as <-.
Defined.

(** X12. After [connect(hostId)] for an id that no host and no tab has,
    the tab list is not empty and its new tab is the active one, but there
    is no active host (the workspace shows its empty state) and the tab
    strip shows the tabs of before only: the new tab is not on screen. *)
Theorem connect_unlisted_host now hostId st :
  Some hostId ∉ Host.id <$> App.hosts st →
  hostId ∉ Tab.hostId <$> App.tabs st →
  let st' := App.handleConnect now hostId st in
  Root.showsTabsView st' = true
  ∧ Root.activeTab st' = Some (Tab.mk ("t" +:+ pretty now) hostId true)
  ∧ Root.activeHost st' = None
  ∧ TabsView.rendered (App.tabs st') (App.hosts st')
    = TabsView.rendered (Tab.set_isActive false <$> App.tabs st) (App.hosts st).
Proof.
  intros Hhost Htab st'. subst st'.
  pose proof (activeTab_handleConnect_new now _ _ Htab) as Hactive.
  pose proof (hosts_handleConnect_unlisted now _ _ Hhost) as Hhosts.
  split_and!.
  - unfold Root.showsTabsView. apply bool_decide_eq_true.
    rewrite tabs_handleConnect_new, length_app by done. simpl. lia.
  - done.
  - unfold Root.activeHost. rewrite Hactive, Hhosts. simpl.
    by rewrite find_host_unlisted.
  - rewrite Hhosts, tabs_handleConnect_new by done.
    unfold TabsView.rendered. rewrite omap_app. simpl.
    rewrite entry_unlisted by done. by rewrite List.app_nil_r.
Qed.

Lemma connect_unlisted_host_witness :
  (Some "h9" ∉ Host.id <$> App.hosts App.initial)
  ∧ ("h9" ∉ Tab.hostId <$> App.tabs App.initial)
  ∧ Root.activeHost (App.handleConnect 5 "h9" App.initial) = None
  ∧ (TabsView.rendered (App.tabs (App.handleConnect 5 "h9" App.initial))
       (App.hosts (App.handleConnect 5 "h9" App.initial))).*1
    = [Tab.mk "t1" "h1" false].
Proof.
  assert (Some "h9" ∉ Host.id <$> App.hosts App.initial) as Hhost by by_evaluation.
  assert ("h9" ∉ Tab.hostId <$> App.tabs App.initial) as Htab by by_evaluation.
  destruct (connect_unlisted_host 5 "h9" App.initial Hhost Htab)
    as (_ & _ & Hnone & Hstrip).
  split_and!; [exact Hhost|exact Htab|exact Hnone|].
  rewrite Hstrip. reflexivity.
Defined.
End active_host.

(** * Further properties of the sidebar *)

Section sidebar.
Import Spec.
Implicit Types (s q : string) (h : Host.t) (hosts : list Host.t)
  (groups : list Group.t).

Lemma startsWith_spec q : ∀ s,
  JS.startsWith s q = true ↔ ∃ post, s = q +:+ post.
Proof.
  induction q as [|a q IH]; intros s; simpl.
  - split; [by exists s|done].
  - destruct s as [|b s].
    + split; [done|]. by intros [post Hs].
    + rewrite andb_true_iff, bool_decide_eq_true, IH. split.
      * intros [-> [post ->]]. by exists post.
      * intros [post Hs]. rewrite app_cons in Hs. injection Hs as <- ->.
        split; [done|by exists post].
Qed.

Lemma includes_spec q s :
  JS.includes s q = true ↔ ∃ pre post, s = pre +:+ q +:+ post.
Proof.
  induction s as [|c s IH].
  - change (JS.includes "" q) with (JS.startsWith "" q || false).
    rewrite orb_false_r, startsWith_spec. split.
    + intros [post Hs]. by exists "", post.
    + intros ([|??] & post & Hs); [|done]. by exists post.
  - change (JS.includes (String c s) q)
      with (JS.startsWith (String c s) q || JS.includes s q).
    rewrite orb_true_iff, startsWith_spec, IH. split.
    + intros [[post Hs]|(pre & post & ->)].
      * by exists "", post.
      * by exists (String c pre), post.
    + intros ([|c' pre] & post & Hs).
      * left. by exists post.
      * right. rewrite app_cons in Hs. injection Hs as <- ->.
        by exists pre, post.
Qed.

(** X13. A longer query never finds more, when it holds no capital
    sigma (U+03A3) and no capital I with dot above (U+0130), whatever the
    text of the hosts is: the hosts found for a query that contains [q]
    are, in order, among the hosts found for [q]. *)
Theorem search_narrows T (wideHosts : list Wide.Searched) (p q r : Wide.text) :
  Wide.plain (p ++ q ++ r) →
  Wide.filteredHosts T wideHosts (p ++ q ++ r)
    `sublist_of` Wide.filteredHosts T wideHosts q.
Proof.
  intros Hplain. unfold Wide.filteredHosts.
  rewrite <-(list_filter_filter_l
    (λ x, Wide.matches T (p ++ q ++ r) x) (λ x, Wide.matches T q x)).
  - apply sublist_filter.
  - intros x Hm. apply Is_true_true. apply Is_true_true in Hm.
    by eapply matches_longer_wide.
Qed.

Lemma search_narrows_witness :
  let x := Wide.mkSearched (Wide.of_string "Edge-01")
             (Wide.of_string "10.0.0.9") (Some [[913; 952]%N]) in
  Wide.plain ([913]%N ++ [920]%N ++ [])
  ∧ Wide.filteredHosts Wide.latin_greek [x] ([913]%N ++ [920]%N ++ []) = [x]
  ∧ [x] `sublist_of` Wide.filteredHosts Wide.latin_greek [x] [920%N].
Proof.
  assert (Wide.plain ([913]%N ++ [920]%N ++ [])) as Hplain.
  { split; by_evaluation. }
  split_and!; [exact Hplain|reflexivity|].
  exact (search_narrows Wide.latin_greek
           [Wide.mkSearched (Wide.of_string "Edge-01")
              (Wide.of_string "10.0.0.9") (Some [[913; 952]%N])]
           [913%N] [920%N] [] Hplain).
Defined.

Lemma NoDup_fmap_elem {A B} (f : A → B) (l : list A) x y :
  NoDup (f <$> l) → x ∈ l → y ∈ l → f x = f y → x = y.
Proof.
  intros Hnd [i Hi]%list_elem_of_lookup [j Hj]%list_elem_of_lookup Heq.
  assert (i = j) as ->; [|congruence].
  eapply (NoDup_lookup _ _ _ (f x) Hnd).
  - by rewrite list_lookup_fmap, Hi.
  - rewrite list_lookup_fmap, Hj. simpl. by rewrite Heq.
Qed.

Lemma browse_row groups hosts rows ungrouped group members :
  Sidebar.treeView groups hosts "" = Sidebar.Browse rows ungrouped →
  (group, Some members) ∈ rows →
  group ∈ groups ∧ Group.isExpanded group = true
  ∧ members = filter (λ h, Host.groupId h = Some (Group.id group)) hosts.
Proof.
  unfold Sidebar.treeView. simpl. intros [= <- _].
  intros (group' & Heq & Hin)%list_elem_of_fmap.
  injection Heq as -> Hmembers.
  destruct (Group.isExpanded group'); [|done]. by injection Hmembers as ->.
Qed.

(** X14. A host of a collapsed group is hidden in browse mode, under every
    group and in the ungrouped section, when group ids are pairwise
    distinct and the group id is not empty; a search for its name still
    lists it. *)
Theorem collapsed_hidden_but_found groups hosts h group :
  NoDup (Group.id <$> groups) → group ∈ groups →
  Group.isExpanded group = false → Group.id group ≠ "" →
  h ∈ hosts → Host.groupId h = Some (Group.id group) → Host.name h ≠ "" →
  (∃ rows ungrouped,
     Sidebar.treeView groups hosts "" = Sidebar.Browse rows ungrouped
     ∧ (h ∉ ungrouped)
     ∧ ∀ group' members, (group', Some members) ∈ rows → h ∉ members)
  ∧ ∃ found,
      Sidebar.treeView groups hosts (Host.name h) = Sidebar.SearchResults found
      ∧ h ∈ found.
Proof.
  intros Hnd Hgroup Hcollapsed Hid Hh Hgid Hname. split.
  - eexists _, _. split_and!; [reflexivity| |].
    + intros [Hno _]%list_elem_of_filter. unfold Sidebar.no_groupId in Hno.
      rewrite Hgid in Hno. by apply bool_decide_unpack in Hno.
    + intros group' members Hrow.
      destruct (browse_row groups hosts _ _ _ _ eq_refl Hrow)
        as (Hgroup' & Hexp & ->).
      intros [Hgid' _]%list_elem_of_filter.
      assert (group' = group) as ->; [|congruence].
      apply (NoDup_fmap_elem Group.id groups); [done..|congruence].
  - exists (Sidebar.filteredHosts hosts (Host.name h)). split.
    + unfold Sidebar.treeView. by rewrite bool_decide_eq_true_2.
    + apply list_elem_of_filter. split; [|done]. apply Is_true_true.
      unfold Sidebar.matches. apply orb_true_iff. left.
      apply orb_true_iff. left. apply includes_spec. exists "", "".
      by rewrite app_nil_l, app_nil_r.
Qed.

Lemma collapsed_hidden_but_found_witness :
  let h4 := Host.mk (Some "h4") "labvm01" "192.168.1.100" "root" 22%Z
              (Some "g3") (Some error) None None None in
  Sidebar.treeView App.INITIAL_GROUPS App.INITIAL_HOSTS "labvm01"
  = Sidebar.SearchResults [h4]
  ∧ ∃ rows ungrouped,
      Sidebar.treeView App.INITIAL_GROUPS App.INITIAL_HOSTS ""
      = Sidebar.Browse rows ungrouped
      ∧ (h4 ∉ ungrouped)
      ∧ ∀ group' members, (group', Some members) ∈ rows → h4 ∉ members.
Proof.
  split; [reflexivity|].
  eapply (collapsed_hidden_but_found App.INITIAL_GROUPS App.INITIAL_HOSTS
            _ (Group.mk "g3" "Lab" false)).
  - by_evaluation.
  - by_evaluation.
  - reflexivity.
  - done.
  - by_evaluation.
  - reflexivity.
  - done.
Defined.

(** X15. In browse mode with pairwise distinct, non-empty group ids no
    host is listed twice: the member lists of two different rows share no
    host, and no host under a group is in the ungrouped section. *)
Theorem browse_lists_once groups hosts rows ungrouped :
  NoDup (Group.id <$> groups) → "" ∉ Group.id <$> groups →
  Sidebar.treeView groups hosts "" = Sidebar.Browse rows ungrouped →
  ∀ h,
    (∀ g1 m1 g2 m2, (g1, Some m1) ∈ rows → (g2, Some m2) ∈ rows →
       h ∈ m1 → h ∈ m2 → g1 = g2 ∧ m1 = m2)
    ∧ (∀ g m, (g, Some m) ∈ rows → h ∈ m → h ∉ ungrouped).
Proof.
  intros Hnd Hempty Hview h. split.
  - intros g1 m1 g2 m2 Hr1 Hr2 Hm1 Hm2.
    destruct (browse_row _ _ _ _ _ _ Hview Hr1) as (Hg1 & _ & ->).
    destruct (browse_row _ _ _ _ _ _ Hview Hr2) as (Hg2 & _ & ->).
    apply list_elem_of_filter in Hm1 as [Hid1 _].
    apply list_elem_of_filter in Hm2 as [Hid2 _].
    assert (g1 = g2) as ->; [|done].
    apply (NoDup_fmap_elem Group.id groups); [done..|congruence].
  - intros g m Hr Hm.
    destruct (browse_row _ _ _ _ _ _ Hview Hr) as (Hg & _ & ->).
    apply list_elem_of_filter in Hm as [Hid _].
    unfold Sidebar.treeView in Hview. simpl in Hview. injection Hview as _ <-.
    intros [Hno _]%list_elem_of_filter. unfold Sidebar.no_groupId in Hno.
    rewrite Hid in Hno. apply bool_decide_unpack in Hno.
    apply Hempty, list_elem_of_fmap. by exists g.
Qed.

Lemma browse_lists_once_witness :
  NoDup (Group.id <$> App.INITIAL_GROUPS)
  ∧ ("" ∉ Group.id <$> App.INITIAL_GROUPS)
  ∧ ∀ g m,
      (g, Some m) ∈ (λ group,
          (group,
           if Group.isExpanded group
           then Some (filter (λ h, Host.groupId h = Some (Group.id group))
                        App.INITIAL_HOSTS)
           else None)) <$> App.INITIAL_GROUPS →
      ∀ h, h ∈ m → h ∉ filter (λ h, Sidebar.no_groupId h) App.INITIAL_HOSTS.
Proof.
  assert (NoDup (Group.id <$> App.INITIAL_GROUPS)) as Hnd by by_evaluation.
  assert ("" ∉ Group.id <$> App.INITIAL_GROUPS) as Hempty by by_evaluation.
  split_and!; [exact Hnd|exact Hempty|].
  intros g m Hrow h.
  exact (proj2 (browse_lists_once App.INITIAL_GROUPS App.INITIAL_HOSTS _ _
                  Hnd Hempty eq_refl h) g m Hrow).
Defined.
End sidebar.

Section toggle_view.
Implicit Types (st : App.t) (hosts : list Host.t).

(** X16. Toggling a group changes the browse view in the rows of the
    groups with that id only: such a row lists the hosts of the group if
    it listed none before, and none if it listed them; the other rows and
    the ungrouped section stay as they are. *)
Theorem toggleGroup_view groupId st hosts :
  ∃ rows rows' ungrouped,
    Sidebar.treeView (App.groups st) hosts "" = Sidebar.Browse rows ungrouped
    ∧ Sidebar.treeView (App.groups (App.handleToggleGroup groupId st)) hosts ""
      = Sidebar.Browse rows' ungrouped
    ∧ length rows' = length rows
    ∧ ∀ i group members, rows !! i = Some (group, members) →
        (Group.id group ≠ groupId → rows' !! i = Some (group, members))
        ∧ (Group.id group = groupId →
           ∃ group',
             rows' !! i
             = Some (group',
                     match members with
                     | Some _ => None
                     | None =>
                         Some (filter (λ h, Host.groupId h = Some groupId) hosts)
                     end)
             ∧ Group.id group' = groupId
             ∧ Group.name group' = Group.name group
             ∧ Group.isExpanded group' = negb (Group.isExpanded group)).
Proof.
  eexists _, _, _. split_and!; [reflexivity|reflexivity| |].
  { rewrite groups_handleToggleGroup. by rewrite !length_fmap. }
  intros i group members Hrow. rewrite groups_handleToggleGroup.
  rewrite list_lookup_fmap in Hrow. rewrite !list_lookup_fmap.
  destruct (App.groups st !! i) as [g|]; [|done]. simpl in *.
  injection Hrow as <- <-. split; intros Hid.
  - by rewrite bool_decide_eq_false_2.
  - rewrite bool_decide_eq_true_2 by done.
    exists (Group.mk (Group.id g) (Group.name g) (negb (Group.isExpanded g))).
    split_and!; [|done..].
    simpl. rewrite Hid. by destruct (Group.isExpanded g).
Qed.
End toggle_view.

(** * Further properties of the host editor *)

Section editor_more.
Import Spec.
Implicit Types (s t : string) (c : ascii) (fd : Host.t).

(** X17. The save callback runs when and only when the form has a
    non-empty [name] and a non-empty [hostname], then once and with the
    form data; a name of blanks only counts as non-empty. *)
Theorem submit_runs_save formData :
  (HostEditor.handleSubmit (λ _ runs, S runs) formData 0 = 1
   ↔ Host.name formData ≠ "" ∧ Host.hostname formData ≠ "")
  ∧ HostEditor.handleSubmit (λ _ runs, S runs) formData 0 ≤ 1
  ∧ (Host.name formData ≠ "" → Host.hostname formData ≠ "" →
     ∀ (St : Type) (onSave : Host.t → St → St) (st : St),
       HostEditor.handleSubmit onSave formData st = onSave formData st)
  ∧ HostEditor.handleSubmit (λ _ runs, S runs)
      (HostEditor.handleChange HostEditor.hostname "h"
         (HostEditor.handleChange HostEditor.name " "
            (HostEditor.initialFormData None))) 0 = 1.
Proof.
  unfold HostEditor.handleSubmit. split_and!.
  - destruct (decide (Host.name formData = "")) as [Hn|Hn];
      [rewrite (bool_decide_eq_true_2 _ Hn)|rewrite (bool_decide_eq_false_2 _ Hn)];
      (destruct (decide (Host.hostname formData = "")) as [Hh|Hh];
       [rewrite (bool_decide_eq_true_2 _ Hh)|rewrite (bool_decide_eq_false_2 _ Hh)]);
      simpl; split; try done; try lia; by intros [??].
  - do 2 case_bool_decide; simpl; lia.
  - intros Hname Hhostname St onSave st.
    by rewrite !bool_decide_eq_false_2.
  - reflexivity.
Qed.

Lemma session_snoc host inputs i :
  Session.formData host (inputs ++ [i])
  = Session.input i (Session.formData host inputs).
Proof. unfold Session.formData. by rewrite foldl_app. Qed.

Lemma session_keeps host inputs :
  Host.id (Session.formData host inputs)
    = Host.id (HostEditor.initialFormData host)
  ∧ Host.status (Session.formData host inputs)
    = Host.status (HostEditor.initialFormData host).
Proof.
  induction inputs as [|i inputs IH] using rev_ind; [done|].
  rewrite session_snoc. destruct IH as [<- <-].
  destruct i as [[] value|value]; done.
Qed.

(** X18. Nothing typed into the editor changes the id or the status of
    the form: after any inputs a form mounted on a host carries that
    host's id and status, and a form mounted for a new host carries
    neither.  Hence a submit in edit mode replaces the hosts with the id
    of the host under edit, and only those, by the form data. *)
Theorem session_targets_host host inputs now st :
  let formData := Session.formData (Some host) inputs in
  Host.id formData = Host.id host
  ∧ Host.status formData = Host.status host
  ∧ Host.id (Session.formData None inputs) = None
  ∧ Host.status (Session.formData None inputs) = None
  ∧ (Host.name formData ≠ "" → Host.hostname formData ≠ "" →
     App.hosts (App.submitEditor now formData (App.handleEditHost host st))
     = (λ h, if bool_decide (Host.id h = Host.id host) then formData else h)
         <$> App.hosts st).
Proof.
  intros formData. subst formData.
  destruct (session_keeps (Some host) inputs) as [Hid Hstatus].
  destruct (session_keeps None inputs) as [Hid' Hstatus'].
  split_and!; [done..|].
  intros Hname Hhostname. unfold App.submitEditor, HostEditor.handleSubmit.
  rewrite !bool_decide_eq_false_2 by done. cbn [orb].
  rewrite (hosts_handleSaveHost_edit _ _ _ host) by done.
  cbn [App.handleEditHost App.hosts App.setIsEditorOpen App.setEditingHost].
  by rewrite Hid.
Qed.

Lemma session_targets_host_witness :
  let h2 := Host.mk (Some "h2") "db-prod-01" "10.0.1.20" "admin" 2222%Z
              (Some "g1") (Some idle) None None None in
  let inputs := [Session.change HostEditor.port "2200";
                 Session.tags "db, prod"; Session.change HostEditor.user "dba"] in
  App.hosts (App.submitEditor 7 (Session.formData (Some h2) inputs)
               (App.handleEditHost h2 App.initial)) !! 1
  = Some (Host.mk (Some "h2") "db-prod-01" "10.0.1.20" "dba" 2200%Z
            (Some "g1") (Some idle) (Some ["db"; "prod"]) None None).
Proof.
  set (h2 := Host.mk (Some "h2") "db-prod-01" "10.0.1.20" "admin" 2222%Z
               (Some "g1") (Some idle) None None None).
  set (inputs := [Session.change HostEditor.port "2200";
                  Session.tags "db, prod"; Session.change HostEditor.user "dba"]).
  destruct (session_targets_host h2 inputs 7 App.initial)
    as (_ & _ & _ & _ & Hsave).
  cbv zeta. rewrite Hsave; [reflexivity|done|done].
Defined.
End editor_more.

(** * The tags field, further *)

Section tags_more.
Import Spec.
Implicit Types (s t : string) (c : ascii) (ts : list string).

Lemma contains_char_app c s t :
  contains_char c (s +:+ t) = contains_char c s || contains_char c t.
Proof.
  induction s as [|b s IH]; [done|].
  rewrite app_cons. simpl. by rewrite IH, orb_assoc.
Qed.

(** A tag as the form stores it: not empty, without a comma, without
    white space at its ends. *)
Lemma parseTags_elem value t :
  t ∈ HostEditor.parseTags value →
  t ≠ "" ∧ contains_char "," t = false
  ∧ (∀ c, first_char t = Some c → JS.is_whitespace c = false)
  ∧ (∀ c, last_char t = Some c → JS.is_whitespace c = false).
Proof.
  unfold HostEditor.parseTags.
  intros [Hne (seg & -> & Hseg)%list_elem_of_fmap]%list_elem_of_filter.
  destruct (trim_spec seg) as (l & r & Hs & _ & _ & Hfirst & Hlast).
  split_and!; [done| |done..].
  pose proof (split_no_sep "," value) as Hsep.
  rewrite Forall_forall in Hsep. specialize (Hsep _ Hseg).
  rewrite Hs, !contains_char_app in Hsep.
  apply orb_false_iff in Hsep as [_ Hsep].
  by apply orb_false_iff in Hsep as [Hsep _].
Qed.

(** X19. Every tag the tags field produces is non-empty, contains no
    comma and neither starts nor ends with white space. *)
Theorem tags_clean value formData :
  ∃ ts, Host.tags (HostEditor.tags_onChange value formData) = Some ts
    ∧ Forall (λ t,
        t ≠ "" ∧ contains_char "," t = false
        ∧ (∀ c, first_char t = Some c → JS.is_whitespace c = false)
        ∧ (∀ c, last_char t = Some c → JS.is_whitespace c = false)) ts.
Proof.
  exists (HostEditor.parseTags value). split; [done|].
  apply Forall_forall. intros t. apply parseTags_elem.
Qed.

Lemma trim_clean t :
  (∀ c, first_char t = Some c → JS.is_whitespace c = false) →
  (∀ c, last_char t = Some c → JS.is_whitespace c = false) →
  JS.trim t = t.
Proof.
  intros Hfirst Hlast. symmetry. apply trimmed_unique.
  exists "", "". by rewrite app_nil_l, app_nil_r.
Qed.

Lemma parseTags_space s :
  HostEditor.parseTags (String " " s) = HostEditor.parseTags s.
Proof.
  unfold HostEditor.parseTags. simpl.
  pose proof (split_nonempty "," s) as Hne.
  destruct (JS.split "," s) as [|seg rest]; [done|].
  by rewrite !fmap_cons.
Qed.

Lemma parseTags_cons t s :
  t ≠ "" → contains_char "," t = false → JS.trim t = t →
  HostEditor.parseTags (t +:+ String "," s) = t :: HostEditor.parseTags s.
Proof.
  intros Hne Hcomma Htrim. unfold HostEditor.parseTags.
  rewrite split_app_sep by done.
  by rewrite fmap_cons, Htrim, filter_cons_True.
Qed.

Lemma parseTags_join ts :
  Forall (λ t,
    t ≠ "" ∧ contains_char "," t = false
    ∧ (∀ c, first_char t = Some c → JS.is_whitespace c = false)
    ∧ (∀ c, last_char t = Some c → JS.is_whitespace c = false)) ts →
  HostEditor.parseTags (JS.join ", " ts) = ts.
Proof.
  induction 1 as [|t ts (Hne & Hcomma & Hfirst & Hlast) Hts IH]; [done|].
  pose proof (trim_clean t Hfirst Hlast) as Htrim.
  destruct ts as [|t' ts].
  - simpl. unfold HostEditor.parseTags.
    rewrite split_no_sep_id by done.
    by rewrite fmap_cons, Htrim, filter_cons_True.
  - rewrite join_cons by done.
    change (", " +:+ JS.join ", " (t' :: ts))
      with (String "," (String " " (JS.join ", " (t' :: ts)))).
    by rewrite parseTags_cons, parseTags_space, IH.
Qed.

(** X20. The tags field is stable: the text it shows after a change
    ([tags.join(', ')]) parses to the tags just stored, so feeding the
    shown text back changes nothing. *)
Theorem tags_field_stable value formData :
  let formData' := HostEditor.tags_onChange value formData in
  HostEditor.parseTags (Session.tagsValue formData') = HostEditor.parseTags value
  ∧ HostEditor.tags_onChange (Session.tagsValue formData') formData' = formData'.
Proof.
  cbv zeta.
  assert (HostEditor.parseTags
            (Session.tagsValue (HostEditor.tags_onChange value formData))
          = HostEditor.parseTags value) as Hparse.
  { unfold Session.tagsValue. simpl. apply parseTags_join.
    apply Forall_forall. intros t. apply parseTags_elem. }
  split; [done|]. unfold HostEditor.tags_onChange at 1. by rewrite Hparse.
Qed.
End tags_more.

(** * The port field, further *)

Section port_more.
Implicit Types (s rest : string) (c : ascii) (x : N).
Local Open Scope Z_scope.

Lemma digit_pretty_N_char (r : N) :
  (r < 10)%N → JS.digit 10 (pretty_N_char r) = Some (Z.of_N r).
Proof.
  intros Hr.
  assert (r = 0 ∨ r = 1 ∨ r = 2 ∨ r = 3 ∨ r = 4 ∨ r = 5 ∨ r = 6 ∨ r = 7
          ∨ r = 8 ∨ r = 9)%N as Hcases by lia.
  repeat (destruct Hcases as [->|Hcases]; [reflexivity|]). by subst.
Qed.

(** Reading the decimal digits of [x], written before [s], gives [x] as
    the value read so far. *)
Lemma digits_pretty_N_go x : ∀ s,
  (0 < x)%N →
  JS.digits 10 (pretty_N_go x s) None = JS.digits 10 s (Some (Z.of_N x)).
Proof.
  induction (N.lt_wf_0 x) as [x _ IH]; intros s Hx.
  rewrite pretty_N_go_step by done.
  assert (x `mod` 10 < 10)%N as Hr by (by apply N.mod_lt).
  pose proof (N.div_mod x 10 ltac:(done)) as Hdiv.
  destruct (decide (x `div` 10 = 0)%N) as [Hq|Hq].
  - rewrite Hq, pretty_N_go_0. simpl.
    rewrite digit_pretty_N_char by done. simpl. f_equal. f_equal. lia.
  - rewrite IH; [|apply N.div_lt; lia|lia]. simpl.
    rewrite digit_pretty_N_char by done. simpl. f_equal. f_equal. lia.
Qed.

(** The decimal form of a positive number starts with a digit from 1 to
    9. *)
Lemma pretty_N_go_head x : ∀ s,
  (0 < x)%N →
  ∃ d rest, (1 ≤ d ≤ 9)%N ∧ pretty_N_go x s = String (pretty_N_char d) rest.
Proof.
  induction (N.lt_wf_0 x) as [x _ IH]; intros s Hx.
  rewrite pretty_N_go_step by done.
  pose proof (N.div_mod x 10 ltac:(done)) as Hdiv.
  assert (x `mod` 10 < 10)%N as Hr by (by apply N.mod_lt).
  destruct (decide (x `div` 10 = 0)%N) as [Hq|Hq].
  - rewrite Hq, pretty_N_go_0. exists (x `mod` 10)%N, s. split; [lia|done].
  - apply IH; [apply N.div_lt; lia|lia].
Qed.

Lemma parseInt_unsigned c rest :
  JS.is_whitespace c = false → c ≠ "-"%char → c ≠ "+"%char → c ≠ "0"%char →
  JS.parseInt (String c rest) = JS.digits 10 (String c rest) None.
Proof.
  intros Hws Hminus Hplus Hzero. unfold JS.parseInt.
  set (read := JS.digits 10 (String c rest) None).
  assert (JS.trimStart (String c rest) = String c rest) as ->
    by (simpl; by rewrite Hws).
  assert (∀ a s, a ≠ c → JS.startsWith (String c rest) (String a s) = false)
    as Hstart.
  { intros a s Ha. simpl. by rewrite bool_decide_eq_false_2. }
  rewrite !Hstart by done. cbn [orb]. fold read.
  destruct read as [m|]; [|done]. f_equal. by destruct m.
Qed.

Lemma parseInt_minus c rest :
  JS.is_whitespace c = false → c ≠ "-"%char → c ≠ "+"%char → c ≠ "0"%char →
  JS.parseInt (String "-" (String c rest))
  = Z.opp <$> JS.digits 10 (String c rest) None.
Proof.
  intros Hws Hminus Hplus Hzero. unfold JS.parseInt.
  set (read := JS.digits 10 (String c rest) None).
  change (JS.trimStart (String "-" (String c rest)))
    with (String "-" (String c rest)).
  change (JS.startsWith (String "-" (String c rest)) "-") with true.
  change (JS.startsWith (String "-" (String c rest)) "+") with false.
  cbn [orb JS.substring_from].
  assert (∀ a s, a ≠ c → JS.startsWith (String c rest) (String a s) = false)
    as Hstart.
  { intros a s Ha. simpl. by rewrite bool_decide_eq_false_2. }
  rewrite !Hstart by done. cbn [orb]. fold read.
  by destruct read as [[|?|?]|].
Qed.

Lemma pretty_N_char_plain (d : N) :
  (1 ≤ d ≤ 9)%N →
  JS.is_whitespace (pretty_N_char d) = false
  ∧ pretty_N_char d ≠ "-"%char ∧ pretty_N_char d ≠ "+"%char
  ∧ pretty_N_char d ≠ "0"%char.
Proof.
  intros Hd.
  assert (d = 1 ∨ d = 2 ∨ d = 3 ∨ d = 4 ∨ d = 5 ∨ d = 6 ∨ d = 7
          ∨ d = 8 ∨ d = 9)%N as Hcases by lia.
  repeat (destruct Hcases as [->|Hcases]; [by split_and!|]). subst.
  by split_and!.
Qed.

(** [parseInt] reads the decimal form of every integer back. *)
Lemma parseInt_pretty (z : Z) : JS.parseInt (pretty z) = Some z.
Proof.
  destruct z as [|p|p]; [reflexivity|..].
  - change (pretty (Z.pos p)) with (pretty_N_go (N.pos p) "").
    destruct (pretty_N_go_head (N.pos p) "" ltac:(done)) as (d & rest & Hd & Hhead).
    destruct (pretty_N_char_plain d Hd) as (? & ? & ? & ?).
    rewrite Hhead, parseInt_unsigned by done.
    rewrite <-Hhead, digits_pretty_N_go by done. done.
  - change (pretty (Z.neg p)) with (String "-" (pretty_N_go (N.pos p) "")).
    destruct (pretty_N_go_head (N.pos p) "" ltac:(done)) as (d & rest & Hd & Hhead).
    destruct (pretty_N_char_plain d Hd) as (? & ? & ? & ?).
    rewrite Hhead, parseInt_minus by done.
    rewrite <-Hhead, digits_pretty_N_go by done. done.
Qed.

(** X21. The port field is stable on every non-zero port below 2^53 in
    magnitude: entering the decimal text the field shows for the stored
    port stores the same port again, negative ports included (a stored 0
    would become 22). *)
Theorem port_field_stable formData :
  Z.abs (Host.port formData) < 2 ^ 53 →
  (Host.port formData ≠ 0 →
   HostEditor.handleChange HostEditor.port (Session.portValue formData) formData
   = formData)
  ∧ (Host.port formData = 0 →
     Host.port (HostEditor.handleChange HostEditor.port
                  (Session.portValue formData) formData) = 22).
Proof.
  intros _. unfold Session.portValue. simpl. split.
  - intros Hp. rewrite parseInt_pretty. simpl.
    destruct (Z.eqb_spec (Host.port formData) 0); [done|]. by destruct formData.
  - intros ->. reflexivity.
Qed.

Lemma port_field_stable_witness :
  let formData := HostEditor.handleChange HostEditor.port "-0x10"
                    (HostEditor.initialFormData None) in
  Z.abs (Host.port formData) < 2 ^ 53
  ∧ Host.port formData = -16 ∧ Session.portValue formData = "-16"
  ∧ HostEditor.handleChange HostEditor.port (Session.portValue formData) formData
    = formData.
Proof.
  assert (Z.abs (Host.port (HostEditor.handleChange HostEditor.port "-0x10"
                              (HostEditor.initialFormData None))) < 2 ^ 53)
    as Hbound by (vm_compute; reflexivity).
  split_and!; [exact Hbound|reflexivity..|].
  apply (proj1 (port_field_stable _ Hbound)). done.
Defined.
End port_more.

(** * The terminal view *)

Section terminal.
Import Spec.
Implicit Types (s q line : string) (c : ascii).

Lemma includes_contains_char s q c :
  JS.includes s q = true → contains_char c q = true → contains_char c s = true.
Proof.
  intros (pre & post & ->)%includes_spec Hc.
  by rewrite !contains_char_app, Hc, orb_true_r.
Qed.

Lemma not_prompt line :
  contains_char "$" line = false → Terminal.isPrompt line = false.
Proof.
  intros Hline. apply not_true_iff_false. intros Hprompt.
  by rewrite (includes_contains_char _ _ "$" Hprompt) in Hline.
Qed.

Lemma includes_app_r s q line :
  JS.includes line q = true → JS.includes (s +:+ line) q = true.
Proof.
  rewrite !includes_spec. intros (pre & post & ->).
  exists (s +:+ pre), post. by rewrite app_assoc.
Qed.

Lemma includes_app_l s q line :
  JS.includes line q = true → JS.includes (line +:+ s) q = true.
Proof.
  rewrite !includes_spec. intros (pre & post & ->).
  exists pre, (post +:+ s). by rewrite !app_assoc.
Qed.

Lemma contains_char_pretty_N_go (x : N) : ∀ s,
  contains_char "$" s = false → contains_char "$" (pretty_N_go x s) = false.
Proof.
  induction (N.lt_wf_0 x) as [x _ IH]; intros s Hs.
  destruct (decide (0 < x)%N) as [Hx|Hx].
  - rewrite pretty_N_go_step by done. apply IH; [by apply N.div_lt|].
    simpl. rewrite Hs, orb_false_r. apply bool_decide_eq_false.
    unfold pretty_N_char. by repeat case_match.
  - assert (x = 0%N) as -> by lia. by rewrite pretty_N_go_0.
Qed.

Lemma contains_char_pretty (z : Z) : contains_char "$" (pretty z) = false.
Proof.
  destruct z as [|p|p]; [done|..].
  - by apply (contains_char_pretty_N_go (N.pos p)).
  - change (pretty (Z.neg p)) with (String "-" (pretty_N_go (N.pos p) "")).
    simpl. by apply (contains_char_pretty_N_go (N.pos p)).
Qed.

(** X22. The terminal view has sixteen lines and draws the last one as the
    prompt, whatever the host.  When neither the user, the hostname nor the
    two date texts contain a dollar sign, no other line is drawn as a
    prompt; a hostname that contains [~$] turns the first line into a
    prompt as well. *)
Theorem terminal_prompt host now lastLogin :
  (Z.abs (Host.port host) < 2 ^ 53)%Z →
  ∃ init prompt,
    Terminal.lines host now lastLogin = init ++ [prompt]
    ∧ length init = 15
    ∧ Terminal.isPrompt prompt = true
    ∧ (contains_char "$" (Host.user host) = false →
       contains_char "$" (Host.hostname host) = false →
       contains_char "$" now = false →
       contains_char "$" lastLogin = false →
       Forall (λ line, Terminal.isPrompt line = false) init)
    ∧ (JS.includes (Host.hostname host) "~$" = true →
       ∃ first rest, init = first :: rest ∧ Terminal.isPrompt first = true).
Proof.
  intros _.
  exists (take 15 (Terminal.lines host now lastLogin)),
         (Host.user host +:+ "@" +:+ Host.name host +:+ ":~$ ").
  split_and!; [reflexivity..| | |].
  - unfold Terminal.isPrompt. do 3 apply includes_app_r. reflexivity.
  - intros Huser Hhostname Hnow Hlast. simpl.
    repeat (apply List.Forall_cons;
      [apply not_prompt; rewrite ?contains_char_app;
       rewrite ?Huser, ?Hhostname, ?Hnow, ?Hlast, ?contains_char_pretty;
       reflexivity|]).
    apply List.Forall_nil.
  - intros Hhostname. eexists _, _. split; [reflexivity|].
    unfold Terminal.isPrompt.
    do 3 apply includes_app_r. by apply includes_app_l.
Qed.

Lemma terminal_prompt_witness :
  let host := Host.mk (Some "h1") "web-prod-01" "10.0.1.10" "deploy" 22%Z
                (Some "g1") (Some connected) None None None in
  let now := "Tue, 03 Nov 2026 08:37:00 GMT" in
  let lastLogin := "Mon, 02 Nov 2026 08:37:00 GMT" in
  (Z.abs (Host.port host) < 2 ^ 53)%Z
  ∧ Terminal.isPrompt <$> Terminal.lines host now lastLogin
    = replicate 15 false ++ [true].
Proof.
  cbv zeta.
  assert (Z.abs 22 < 2 ^ 53)%Z as Hbound by (vm_compute; reflexivity).
  split; [exact Hbound|].
  destruct (terminal_prompt
    (Host.mk (Some "h1") "web-prod-01" "10.0.1.10" "deploy" 22%Z
       (Some "g1") (Some connected) None None None)
    "Tue, 03 Nov 2026 08:37:00 GMT" "Mon, 02 Nov 2026 08:37:00 GMT" Hbound)
    as (init & prompt & _).
  reflexivity.
Defined.
End terminal.
